(** * scarabnet: packet framing, event queue, client and server session logic

    A shallow embedding of [common.hpp], [client.hpp] and [server.hpp].

    - 32-bit unsigned integers are [Z] with the wrap-around written out;
    - byte buffers ([std::vector<uint8>], [const uint8*] plus a size) are
      [list byte];
    - [std::unique_ptr<Packet>] is [option Packet.t], [nullptr] being [None];
    - [std::deque<T>] is a [list T] whose head is the front;
    - [std::unordered_map<uint32, ENetPeer*>] is a [gmap Z Peer];
    - the transport engine (ENet) is external: its notifications are inputs,
      the calls made to it are recorded in a trace, and the two calls whose
      result the code inspects take their answer from an oracle record. *)

From Stdlib Require Import ZArith Lia List Bool Sorted.
From Stdlib Require String.
From coqutil Require Import Byte Word.LittleEndianList.
From stdpp Require Import base option list gmap.
Import ListNotations.
Local Open Scope Z_scope.

(** ** Machine integers and object representations *)

(** [memcpy] of a [uint32] exposes the platform's byte order. *)
Inductive ByteOrder := LittleEndian | BigEndian.

Class Platform := { byte_order : ByteOrder }.

Definition UINT32_MODULUS : Z := 2 ^ 32.

(** Conversion of an integer to [uint32]. *)
Definition to_uint32 (z : Z) : Z := z mod UINT32_MODULUS.

Definition is_uint32 (z : Z) : Prop := 0 <= z < UINT32_MODULUS.

Section ObjectRepresentation.
Context `{Platform}.

(** The four bytes of a [uint32] object, lowest address first. *)
Definition uint32_bytes (v : Z) : list byte :=
  match byte_order with
  | LittleEndian => le_split 4 v
  | BigEndian => rev (le_split 4 v)
  end.

(** The [uint32] whose object representation is [bs]. *)
Definition uint32_of_bytes (bs : list byte) : Z :=
  match byte_order with
  | LittleEndian => le_combine bs
  | BigEndian => le_combine (rev bs)
  end.
End ObjectRepresentation.

(** [std::memcpy(dst + off, src, length src)] on a buffer [dst]; the code
    only calls it with [off + length src <= length dst]. *)
Definition memcpy (dst : list byte) (off : nat) (src : list byte) : list byte :=
  take off dst ++ src ++ drop (off + length src) dst.

(** [std::vector::empty], [std::deque::empty] *)
Definition container_empty {A} (l : list A) : bool :=
  match l with [] => true | _ :: _ => false end.

(** A type that [std::is_trivially_copyable_v] accepts: it has a size,
    which C++ makes at least one byte for every complete object type, and a
    value is determined by the [sizeof] bytes copied into it. *)
Class TriviallyCopyable (T : Type) := {
  sizeof : nat;
  sizeof_pos : (0 < sizeof)%nat;
  (* the object obtained by [memcpy(&obj, src, sizeof(T))] *)
  of_object_bytes : list byte -> T;
  (* the bytes of the object *)
  object_bytes : T -> list byte;
  object_bytes_of : forall bs : list byte,
    length bs = sizeof -> object_bytes (of_object_bytes bs) = bs
}.
Arguments sizeof T {_}.

(** [uint32] is trivially copyable. *)
Definition uint32_TriviallyCopyable `{Platform} : TriviallyCopyable Z.
Proof.
  refine {| sizeof := 4;
            of_object_bytes := uint32_of_bytes;
            object_bytes := uint32_bytes |}.
  - exact (Nat.lt_0_succ 3).
  - intros bs Hlen. unfold uint32_of_bytes, uint32_bytes. destruct byte_order.
    + rewrite <- Hlen. apply split_le_combine.
    + rewrite <- Hlen, <- (length_rev bs), split_le_combine.
      apply rev_involutive.
Defined.

(** ** [struct Packet] *)

Module Packet.

Record Header := mkHeader { id : Z; type : Z }.

Record t := mk { header : Header; data : list byte }.

(** [sizeof(Packet::Header)]: two [uint32] fields, no padding. *)
Definition sizeof_Header : nat := 8.

(** A default-constructed packet. *)
Definition default : t := mk (mkHeader 0 0) [].

Definition wf_Header (h : Header) : Prop := is_uint32 (id h) /\ is_uint32 (type h).

Definition size (p : t) : nat := (sizeof_Header + length (data p))%nat.

(** [data.assign(start, start + size)] *)
Definition putdata (p : t) (start : list byte) (size : nat) : t :=
  mk (header p) (take size start).

Section Representation.
Context `{Platform}.

(** Object representation of the header: [id] at offset 0, [type] at
    offset 4. *)
Definition Header_bytes (h : Header) : list byte :=
  uint32_bytes (id h) ++ uint32_bytes (type h).

Definition Header_of_bytes (bs : list byte) : Header :=
  mkHeader (uint32_of_bytes (take 4 bs)) (uint32_of_bytes (take 4 (drop 4 bs))).
End Representation.

Definition unpack_data {T} `{TriviallyCopyable T} (p : t) : option T :=
  if container_empty (data p) || negb (length (data p) =? sizeof T)%nat
  then None
  else Some (of_object_bytes (take (sizeof T) (data p))).

(** [std::string(data.begin(), data.end())], the empty payload apart. *)
Definition unpack_string (p : t) : String.string :=
  if container_empty (data p) then String.EmptyString
  else String.string_of_list_byte (data p).

End Packet.

(** ** [namespace PacketHelper] *)

Module PacketHelper.
Section Codec.
Context `{Platform}.

Definition serialize_packet (packet : Packet.t) : list byte :=
  let buffer := replicate (Packet.size packet) Byte.x00 in
  let buffer := memcpy buffer 0 (Packet.Header_bytes (Packet.header packet)) in
  let buffer := memcpy buffer Packet.sizeof_Header (Packet.data packet) in
  buffer.

Definition deserialize_packet (data : list byte) : option Packet.t :=
  let size := length data in
  if (size <? Packet.sizeof_Header)%nat then None
  else
    let packet := Packet.default in
    let packet :=
      Packet.mk (Packet.Header_of_bytes (take Packet.sizeof_Header data))
                (Packet.data packet) in
    let payload_start := drop Packet.sizeof_Header data in
    let payload_size := (size - Packet.sizeof_Header)%nat in
    Some (Packet.putdata packet payload_start payload_size).
End Codec.
End PacketHelper.

(** ** [struct Event] *)

Module EventType.
(** [enum class EventType : uint8] *)
Inductive t := None | Connect | Disconnect | Receive.
End EventType.

Module Event.
Record t := mk {
  peer_id : Z;
  type : EventType.t;
  packet : option Packet.t
}.
End Event.

(** What [std::move] leaves behind in the object moved from. *)
Class Movable (T : Type) := { moved_from : T -> T }.

(** The implicit move constructor of [Event] copies the two scalar fields
    and empties the [unique_ptr] of the source. *)
#[export] Instance Event_Movable : Movable Event.t :=
  {| moved_from e := Event.mk (Event.peer_id e) (Event.type e) None |}.

(** [enum PacketFlag : uint8] *)
Definition RELIABLE : Z := Z.shiftl 1 0.
Definition UNSEQUENCED : Z := Z.shiftl 1 1.
Definition UNRELIABLE_FRAGMENT : Z := Z.shiftl 1 3.

(** ** [class TSQueue<T>]

    Every method holds the queue's mutex from entry to return, so each is one
    atomic transition of the [std::deque].  Reading the front or back of an
    empty deque is undefined behaviour in C++; the model returns [None]. *)

Module TSQueue.
Section Queue.
Context {T : Type} `{Movable T}.

Definition front (queue : list T) : option T := head queue.

Definition back (queue : list T) : option T := last queue.

Definition push_back (item : T) (queue : list T) : list T := queue ++ [item].

Definition push_front (item : T) (queue : list T) : list T := item :: queue.

Definition empty (queue : list T) : bool := container_empty queue.

Definition clear (queue : list T) : list T := [].

(** [T t = std::move(this->queue.front());] *)
Definition move_from_front (queue : list T) : option (T * list T) :=
  match queue with
  | [] => None
  | x :: rest => Some (x, moved_from x :: rest)
  end.

(** [T t = std::move(this->queue.back());] *)
Definition move_from_back (queue : list T) : option (T * list T) :=
  match last queue with
  | None => None
  | Some x => Some (x, removelast queue ++ [moved_from x])
  end.

(** [this->queue.pop_front();] *)
Definition deque_pop_front (queue : list T) : list T := tail queue.

Definition pop_front (queue : list T) : option (T * list T) :=
  match move_from_front queue with
  | None => None
  | Some (t, queue) => Some (t, deque_pop_front queue)
  end.

Definition pop_back (queue : list T) : option (T * list T) :=
  match move_from_back queue with
  | None => None
  | Some (t, queue) => Some (t, deque_pop_front queue)
  end.

(** Pushing a sequence of items to the back, one call each. *)
Definition push_back_all (items : list T) (queue : list T) : list T :=
  foldl (fun q item => push_back item q) queue items.

(** [n] successive calls of [pop_front], collecting what they return. *)
Fixpoint pop_front_n (n : nat) (queue : list T) : option (list T * list T) :=
  match n with
  | O => Some ([], queue)
  | S n =>
      match pop_front queue with
      | None => None
      | Some (t, queue) =>
          match pop_front_n n queue with
          | None => None
          | Some (ts, queue) => Some (t :: ts, queue)
          end
      end
  end.

(** A producer and a consumer sharing the queue: since each method is
    atomic, an execution is a sequence of their calls. *)
Inductive Op := PushBack (item : T) | PopFront.

Definition pushed (ops : list Op) : list T :=
  flat_map (fun op => match op with PushBack x => [x] | PopFront => [] end) ops.

(** Runs [ops], returning the items popped, in order, and the final
    queue; [None] if a [pop_front] met an empty queue. *)
Fixpoint run_ops (ops : list Op) (queue : list T) : option (list T * list T) :=
  match ops with
  | [] => Some ([], queue)
  | PushBack x :: ops => run_ops ops (push_back x queue)
  | PopFront :: ops =>
      match pop_front queue with
      | None => None
      | Some (t, queue) =>
          match run_ops ops queue with
          | None => None
          | Some (ts, queue) => Some (t :: ts, queue)
          end
      end
  end.
End Queue.
Arguments Op : clear implicits.
End TSQueue.

(** ** The transport engine, as the code sees it *)

(** An [ENetPeer*]. *)
Definition Peer := nat.

Module ENet.
Inductive EventType :=
| ENET_EVENT_TYPE_NONE
| ENET_EVENT_TYPE_CONNECT
| ENET_EVENT_TYPE_DISCONNECT
| ENET_EVENT_TYPE_RECEIVE
| ENET_EVENT_TYPE_DISCONNECT_TIMEOUT.

(** The fields of [ENetEvent] the code reads; [packet] stands for
    [event.packet->data[0 .. event.packet->dataLength)]. *)
Record ENetEvent := mkEvent {
  type : EventType;
  peer : Peer;
  packet : list byte
}.

(** Calls made to the engine, kept in the order they are made. *)
Inductive Call :=
| enet_packet_create (data : list byte) (flags : Z)
| enet_packet_destroy (data : list byte)
| enet_peer_send (peer : option Peer) (channelID : Z) (data : list byte)
| enet_host_broadcast (channelID : Z) (data : list byte)
| enet_peer_disconnect (peer : option Peer).

(** The calls that pass a buffer on for transmission. *)
Definition transmits (c : Call) : bool :=
  match c with
  | enet_peer_send _ _ _ | enet_host_broadcast _ _ => true
  | _ => false
  end.

(** The answers of the engine that the code branches on. *)
Record Oracle := mkOracle {
  packet_created : bool;  (* [enet_packet_create] did not return [NULL] *)
  peer_send_ok : bool     (* [enet_peer_send] returned 0 *)
}.
End ENet.

(** Lines written by [LOG_SERVER], without the time stamp. *)
Inductive LogLine :=
| LogAlreadyConnected
| LogConnectionAttempt
| LogDisconnecting
| LogNotConnected
| LogSendingPacket (size : nat)
| LogConnectionSuccessful
| LogPacketReceivedFromServer
| LogDisconnectedFromServer
| LogAllocationFailed
| LogClientNotFound (client_id : Z)
| LogFailedToSend
| LogPacketSent
| LogBroadcasted
| LogClientConnected (id : Z)
| LogPacketReceivedFromPeer (id : Z)
| LogClientDisconnected (id : Z).

(** Everything outside the session object that its methods act on. *)
Record World := mkWorld {
  enet_calls : list ENet.Call;   (* trace of engine calls *)
  peer_data : gmap Peer Z;       (* the [data] field of each [ENetPeer] *)
  stdout : list LogLine
}.

Definition enet_call (c : ENet.Call) (w : World) : World :=
  mkWorld (enet_calls w ++ [c]) (peer_data w) (stdout w).

Definition set_peer_data (p : Peer) (v : Z) (w : World) : World :=
  mkWorld (enet_calls w) (<[p := v]> (peer_data w)) (stdout w).

(** [(uintptr_t)peer->data] converted to [uint32]; the engine creates peers
    with a null [data]. *)
Definition get_peer_data (p : Peer) (w : World) : Z :=
  to_uint32 (default 0 (peer_data w !! p)).

(** [LOG_SERVER(message)] *)
Definition LOG_SERVER (show_log : bool) (message : LogLine) (w : World) : World :=
  if show_log then mkWorld (enet_calls w) (peer_data w) (stdout w ++ [message]) else w.

(** The buffers passed on for transmission so far. *)
Definition transmissions (w : World) : list ENet.Call :=
  filter (fun c => ENet.transmits c = true) (enet_calls w).

Definition empty_world : World := mkWorld [] ∅ [].

(** A C++ exception leaving a method. *)
Inductive Exception :=
| FailedToInitializeENet
| FailedToCreateHost
| FailedToCreatePeer.

(** ** [class Client]

    [host] is set once by the constructor and never null afterwards, so it is
    left out.  [running] and [connected] are [std::atomic<bool>]: their loads
    and stores are atomic steps. *)

Module Client.

Record t := mk {
  peer : option Peer;
  show_log : bool;
  events : list Event.t;
  running : bool;
  connected : bool
}.

(** The object after the constructor returned normally. *)
Definition init (show_log : bool) : t := mk None show_log [] false false.

Definition isrunning (c : t) : bool := running c.

Definition isconnected (c : t) : bool :=
  connected c && bool_decide (peer c <> None).

(** [new_peer] is what [enet_host_connect] returns.  The network thread is
    started on success; it is modelled by the functions further down.  There
    is no thread object in the model: it describes [connect] on a client
    whose thread was never started or is still running, not the assignment
    to a [std::thread] that has ended and was not joined. *)
Definition connect (new_peer : option Peer) (c : t) (w : World)
  : (t * World) + Exception :=
  if connected c || running c then
    inl (c, LOG_SERVER (show_log c) LogAlreadyConnected w)
  else
    let c := mk new_peer (show_log c) (events c) (running c) (connected c) in
    match new_peer with
    | None => inr FailedToCreatePeer
    | Some _ =>
        let w := LOG_SERVER (show_log c) LogConnectionAttempt w in
        inl (mk (peer c) (show_log c) (events c) true (connected c), w)
    end.

Definition disconnect (c : t) (w : World) : t * World :=
  if negb (isconnected c) then (c, w)
  else
    let w := enet_call (ENet.enet_peer_disconnect (peer c)) w in
    (c, LOG_SERVER (show_log c) LogDisconnecting w).

Definition poll_event (c : t) : option Event.t * t :=
  if TSQueue.empty (events c) then (None, c)
  else
    match TSQueue.pop_front (events c) with
    | None => (None, c)
    | Some (e, q) => (Some e, mk (peer c) (show_log c) q (running c) (connected c))
    end.

(** Joining the thread is waiting for the loop below to see the flag. *)
Definition stop_network (c : t) : t :=
  mk (peer c) (show_log c) (events c) false (connected c).

(** *** The network thread

    The body of each [case] is a sequence of atomic steps on the shared
    state; the consumer thread can run between any two of them. *)
Inductive Step :=
| store_running (b : bool)
| store_connected (b : bool)
| events_push_back (e : Event.t)
| log_server (message : LogLine)
| packet_destroy (data : list byte).

Definition exec_step (i : Step) (s : t * World) : t * World :=
  let '(c, w) := s in
  match i with
  | store_running b => (mk (peer c) (show_log c) (events c) b (connected c), w)
  | store_connected b => (mk (peer c) (show_log c) (events c) (running c) b, w)
  | events_push_back e =>
      (mk (peer c) (show_log c) (TSQueue.push_back e (events c)) (running c) (connected c), w)
  | log_server m => (c, LOG_SERVER (show_log c) m w)
  | packet_destroy d => (c, enet_call (ENet.enet_packet_destroy d) w)
  end.

Definition run_steps (steps : list Step) (s : t * World) : t * World :=
  foldl (fun s i => exec_step i s) s steps.

(** Peer ID of 0 represent the server connection *)
Definition serverid : Z := 0.

Section WithPlatform.
Context `{Platform}.

(** The result of [enet_packet_create] is passed to [enet_peer_send]
    unchecked; the trace names the buffer it was created from, and does not
    tell a null result apart. *)
Definition send (packet : Packet.t) (flag : Z) (c : t) (w : World) : t * World :=
  if negb (connected c) then
    (c, LOG_SERVER (show_log c) LogNotConnected w)
  else
    let buffer := PacketHelper.serialize_packet packet in
    let w := enet_call (ENet.enet_packet_create buffer flag) w in
    let w := enet_call (ENet.enet_peer_send (peer c) 0 buffer) w in
    (c, LOG_SERVER (show_log c) (LogSendingPacket (length (Packet.data packet))) w).

(** The [switch (event.type)] of [network_thread_loop]. *)
Definition on_event (event : ENet.ENetEvent) : list Step :=
  match ENet.type event with
  | ENet.ENET_EVENT_TYPE_CONNECT =>
      [ store_connected true;
        events_push_back (Event.mk serverid EventType.Connect None);
        log_server LogConnectionSuccessful ]
  | ENet.ENET_EVENT_TYPE_RECEIVE =>
      [ log_server LogPacketReceivedFromServer;
        events_push_back
          (Event.mk serverid EventType.Receive
             (PacketHelper.deserialize_packet (ENet.packet event)));
        packet_destroy (ENet.packet event) ]
  | ENet.ENET_EVENT_TYPE_DISCONNECT
  | ENet.ENET_EVENT_TYPE_DISCONNECT_TIMEOUT =>
      [ store_running false;
        store_connected false;
        events_push_back (Event.mk serverid EventType.Disconnect None);
        log_server LogDisconnectedFromServer ]
  | ENet.ENET_EVENT_TYPE_NONE => []
  end.

Definition handle (event : ENet.ENetEvent) (s : t * World) : t * World :=
  run_steps (on_event event) s.

(** The inner [while]: [pending] are the notifications that successive
    [enet_host_service] calls return before one returns no event. *)
Definition service (pending : list ENet.ENetEvent) (s : t * World) : t * World :=
  foldl (fun s event => handle event s) s pending.

(** The outer [while(this->running)], one element of [batches] per
    iteration.  The loop may never end; a finite list covers every
    finite part of an execution. *)
Fixpoint network_thread_loop (batches : list (list ENet.ENetEvent))
    (s : t * World) : t * World :=
  match batches with
  | [] => s
  | pending :: batches =>
      if running (fst s) then network_thread_loop batches (service pending s)
      else s
  end.
End WithPlatform.

(** *** A consumer thread beside the network thread *)

Inductive Turn :=
| NetworkStep      (* the network thread runs its next atomic step *)
| CallPollEvent    (* the consumer calls [poll_event] *)
| LoadConnected.   (* the consumer loads the [connected] flag *)

(** A load of the flag by the consumer: the events it has received before,
    the value it reads, and, for reference, the queue and the steps the
    network thread has still to run at that moment. *)
Record Observation := mkObservation {
  got : list Event.t;
  queued : list Event.t;
  todo : list Step;
  flag : bool
}.

Record Consumer := mkConsumer {
  polled : list Event.t;      (* events received so far *)
  seen : list Observation     (* the loads so far *)
}.

Fixpoint interleave (schedule : list Turn) (pending : list Step)
    (s : t * World) (k : Consumer) : Consumer * (t * World) :=
  match schedule with
  | [] => (k, s)
  | NetworkStep :: schedule =>
      match pending with
      | [] => interleave schedule [] s k
      | i :: pending => interleave schedule pending (exec_step i s) k
      end
  | CallPollEvent :: schedule =>
      let '(r, c) := poll_event (fst s) in
      let k := match r with
               | None => k
               | Some e => mkConsumer (polled k ++ [e]) (seen k)
               end in
      interleave schedule pending (c, snd s) k
  | LoadConnected :: schedule =>
      let o := mkObservation (polled k) (events (fst s)) pending (connected (fst s)) in
      interleave schedule pending s (mkConsumer (polled k) (seen k ++ [o]))
  end.

(** The value of [connected] that goes with an event: [true] with
    [Connect], [false] with [Disconnect], none with the others. *)
Definition flag_of_event (e : Event.t) : option bool :=
  match Event.type e with
  | EventType.Connect => Some true
  | EventType.Disconnect => Some false
  | _ => None
  end.

(** The flag value of the newest [Connect] or [Disconnect] event in a
    sequence of events, oldest first. *)
Fixpoint last_conn (evs : list Event.t) : option bool :=
  match evs with
  | [] => None
  | e :: evs =>
      match last_conn evs with
      | Some b => Some b
      | None => flag_of_event e
      end
  end.

(** The flag value of the [Connect] or [Disconnect] event that the steps
    still to run push before they store the flag again, if there is one:
    the network thread is then between the store and the push of a
    notification. *)
Fixpoint pending_push (steps : list Step) : option bool :=
  match steps with
  | [] => None
  | store_connected _ :: _ => None
  | events_push_back e :: steps =>
      match flag_of_event e with
      | Some b => Some b
      | None => pending_push steps
      end
  | _ :: steps => pending_push steps
  end.

(** In [steps], every push of a [Connect] or [Disconnect] event comes after
    a store of the matching value to [connected], with no other store and
    no other such push in between, and every store is followed by such a
    push; [armed] is the value stored and not yet pushed for. *)
Fixpoint store_then_push (armed : option bool) (steps : list Step) : Prop :=
  match steps with
  | [] => armed = None
  | store_connected b :: steps => armed = None /\ store_then_push (Some b) steps
  | events_push_back e :: steps =>
      match flag_of_event e with
      | Some b => armed = Some b /\ store_then_push None steps
      | None => store_then_push armed steps
      end
  | _ :: steps => store_then_push armed steps
  end.

(** The flag agrees with the events [evs]: it has the value of the newest
    [Connect] or [Disconnect] event among them, if there is one. *)
Definition agrees (evs : list Event.t) (b : bool) : Prop :=
  forall b', last_conn evs = Some b' -> b = b'.

(** What holds of a load: between a store and its push the flag has the
    value of the event about to be pushed; otherwise it agrees with the
    events pushed so far, received or still queued. *)
Definition flag_consistent (o : Observation) : Prop :=
  match pending_push (todo o) with
  | Some b => flag o = b
  | None => agrees (got o ++ queued o) (flag o)
  end.

(** What C6 says of a load: the flag goes with every [Connect] and
    [Disconnect] event received before it. *)
Definition flag_matches_received (o : Observation) : Prop :=
  Forall (fun e => forall b, flag_of_event e = Some b -> flag o = b) (got o).

End Client.

(** ** [class Server] *)

Module Server.

Record t := mk {
  show_log : bool;
  events : list Event.t;
  running : bool;
  clients : gmap Z Peer;
  curid : Z
}.

(** The object after the constructor returned normally. *)
Definition init (show_log : bool) : t := mk show_log [] false ∅ 1.

Definition isrunning (s : t) : bool := running s.

(** Starts the network thread, modelled by the functions further down. *)
Definition start (s : t) : t :=
  if running s then s
  else mk (show_log s) (events s) true (clients s) (curid s).

Definition stop (s : t) : t :=
  mk (show_log s) (events s) false (clients s) (curid s).

Definition poll_event (s : t) : option Event.t * t :=
  if TSQueue.empty (events s) then (None, s)
  else
    match TSQueue.pop_front (events s) with
    | None => (None, s)
    | Some (e, q) => (Some e, mk (show_log s) q (running s) (clients s) (curid s))
    end.

Definition push_event (e : Event.t) (s : t) : t :=
  mk (show_log s) (TSQueue.push_back e (events s)) (running s) (clients s) (curid s).

Section WithPlatform.
Context `{Platform}.

Definition send (o : ENet.Oracle) (client_id : Z) (packet : Packet.t) (flag : Z)
    (s : t) (w : World) : t * World :=
  if running s then (s, w)
  else
    let serialized := PacketHelper.serialize_packet packet in
    let w := enet_call (ENet.enet_packet_create serialized flag) w in
    if negb (ENet.packet_created o) then
      (s, LOG_SERVER (show_log s) LogAllocationFailed w)
    else
      match clients s !! client_id with
      | None => (s, LOG_SERVER (show_log s) (LogClientNotFound client_id) w)
      | Some peer =>
          let w := enet_call (ENet.enet_peer_send (Some peer) 0 serialized) w in
          if negb (ENet.peer_send_ok o) then
            let w := enet_call (ENet.enet_packet_destroy serialized) w in
            (s, LOG_SERVER (show_log s) LogFailedToSend w)
          else
            (s, LOG_SERVER (show_log s) LogPacketSent w)
      end.

Definition broadcast (o : ENet.Oracle) (packet : Packet.t) (flag : Z)
    (s : t) (w : World) : t * World :=
  if running s then (s, w)
  else
    let buffer := PacketHelper.serialize_packet packet in
    let w := enet_call (ENet.enet_packet_create buffer flag) w in
    if negb (ENet.packet_created o) then
      (s, LOG_SERVER (show_log s) LogAllocationFailed w)
    else
      let w := enet_call (ENet.enet_host_broadcast 0 buffer) w in
      (s, LOG_SERVER (show_log s) LogBroadcasted w).

(** The [switch (event.type)] of [network_thread_loop]. *)
Definition handle (event : ENet.ENetEvent) (st : t * World) : t * World :=
  let '(s, w) := st in
  match ENet.type event with
  | ENet.ENET_EVENT_TYPE_CONNECT =>
      (* [const uint32 newid = this->curid++;] *)
      let newid := curid s in
      let s := mk (show_log s) (events s) (running s) (clients s)
                  (to_uint32 (curid s + 1)) in
      let s := mk (show_log s) (events s) (running s)
                  (<[newid := ENet.peer event]> (clients s)) (curid s) in
      let w := set_peer_data (ENet.peer event) newid w in
      let s := push_event (Event.mk newid EventType.Connect None) s in
      (s, LOG_SERVER (show_log s) (LogClientConnected newid) w)
  | ENet.ENET_EVENT_TYPE_RECEIVE =>
      let peerid := get_peer_data (ENet.peer event) w in
      let w := LOG_SERVER (show_log s) (LogPacketReceivedFromPeer peerid) w in
      let s := push_event
                 (Event.mk peerid EventType.Receive
                    (PacketHelper.deserialize_packet (ENet.packet event))) s in
      (s, enet_call (ENet.enet_packet_destroy (ENet.packet event)) w)
  | ENet.ENET_EVENT_TYPE_DISCONNECT
  | ENet.ENET_EVENT_TYPE_DISCONNECT_TIMEOUT =>
      let peerid := get_peer_data (ENet.peer event) w in
      let s := mk (show_log s) (events s) (running s)
                  (delete peerid (clients s)) (curid s) in
      let s := push_event (Event.mk peerid EventType.Disconnect None) s in
      (s, LOG_SERVER (show_log s) (LogClientDisconnected peerid) w)
  | ENet.ENET_EVENT_TYPE_NONE => (s, w)
  end.

(** The inner [while]: [pending] are the notifications that successive
    [enet_host_service] calls return before one returns no event. *)
Definition service (pending : list ENet.ENetEvent) (st : t * World) : t * World :=
  foldl (fun st event => handle event st) st pending.

(** The outer [while(this->running)], one element of [batches] per
    iteration. *)
Fixpoint network_thread_loop (batches : list (list ENet.ENetEvent))
    (st : t * World) : t * World :=
  match batches with
  | [] => st
  | pending :: batches =>
      if running (fst st) then network_thread_loop batches (service pending st)
      else st
  end.
End WithPlatform.

(** The ids handed out so far, oldest first, as the [Connect] events in the
    queue report them. *)
Definition connect_ids (q : list Event.t) : list Z :=
  flat_map (fun e => match Event.type e with
                     | EventType.Connect => [Event.peer_id e]
                     | _ => []
                     end) q.

(** Number of CONNECT notifications in a sequence. *)
Definition is_connect (event : ENet.ENetEvent) : bool :=
  match ENet.type event with
  | ENet.ENET_EVENT_TYPE_CONNECT => true
  | _ => false
  end.

Definition connects (pending : list ENet.ENetEvent) : nat :=
  length (filter (fun event => is_connect event = true) pending).

(** The values [curid++] yields in [n] successive evaluations, [curid]
    holding [c] before the first. *)
Fixpoint ids_from (c : Z) (n : nat) : list Z :=
  match n with
  | O => []
  | S n => c :: ids_from (to_uint32 (c + 1)) n
  end.

(** Ids that are pairwise distinct, positive, start at 1 and increase
    with the order of acceptance. *)
Definition distinct_positive_increasing (ids : list Z) : Prop :=
  NoDup ids /\
  Forall (fun i => 0 < i) ids /\
  (forall i, head ids = Some i -> i = 1) /\
  StronglySorted Z.lt ids.

End Server.

(** ** Notions used to state properties of the loops *)

(** The type of the event that the network loops push for a notification,
    if they push one. *)
Definition event_type_of (ty : ENet.EventType) : option EventType.t :=
  match ty with
  | ENet.ENET_EVENT_TYPE_NONE => None
  | ENet.ENET_EVENT_TYPE_CONNECT => Some EventType.Connect
  | ENet.ENET_EVENT_TYPE_RECEIVE => Some EventType.Receive
  | ENet.ENET_EVENT_TYPE_DISCONNECT
  | ENet.ENET_EVENT_TYPE_DISCONNECT_TIMEOUT => Some EventType.Disconnect
  end.

Definition is_disconnect (event : ENet.ENetEvent) : bool :=
  match ENet.type event with
  | ENet.ENET_EVENT_TYPE_DISCONNECT
  | ENet.ENET_EVENT_TYPE_DISCONNECT_TIMEOUT => true
  | _ => false
  end.

(** The batches that the client's loop goes through: those up to the first
    one with a DISCONNECT or TIMEOUT notification, that one included. *)
Fixpoint batches_until_disconnect (batches : list (list ENet.ENetEvent))
    : list (list ENet.ENetEvent) :=
  match batches with
  | [] => []
  | pending :: batches =>
      if existsb is_disconnect pending then [pending]
      else pending :: batches_until_disconnect batches
  end.

(** [n] successive calls of [Server::poll_event], with the events of the
    calls that returned [true], in order. *)
Fixpoint server_poll_n (n : nat) (s : Server.t) : list Event.t * Server.t :=
  match n with
  | O => ([], s)
  | S n =>
      match Server.poll_event s with
      | (None, s) => server_poll_n n s
      | (Some e, s) => let '(es, s) := server_poll_n n s in (e :: es, s)
      end
  end.

(** The same for [Client::poll_event]. *)
Fixpoint client_poll_n (n : nat) (c : Client.t) : list Event.t * Client.t :=
  match n with
  | O => ([], c)
  | S n =>
      match Client.poll_event c with
      | (None, c) => client_poll_n n c
      | (Some e, c) => let '(es, c) := client_poll_n n c in (e :: es, c)
      end
  end.

(** [curid] after [n] evaluations of [curid++]. *)
Fixpoint curid_after (c : Z) (n : nat) : Z :=
  match n with
  | O => c
  | S n => curid_after (to_uint32 (c + 1)) n
  end.

(** * Properties *)

(** ** Object representation of [uint32] and of the header *)

Section RepresentationFacts.
Context `{Platform}.

Lemma length_uint32_bytes (v : Z) : length (uint32_bytes v) = 4%nat.
Proof.
  unfold uint32_bytes. destruct byte_order.
  - apply length_le_split.
  - rewrite length_rev. apply length_le_split.
Qed.

Lemma uint32_of_bytes_bytes (v : Z) :
  is_uint32 v -> uint32_of_bytes (uint32_bytes v) = v.
Proof.
  intros Hv. unfold uint32_of_bytes, uint32_bytes.
  destruct byte_order; rewrite ?rev_involutive, le_combine_split;
    apply Z.mod_small; exact Hv.
Qed.

Lemma uint32_bytes_of_bytes (bs : list byte) :
  length bs = 4%nat -> uint32_bytes (uint32_of_bytes bs) = bs.
Proof.
  intros Hlen. unfold uint32_of_bytes, uint32_bytes. destruct byte_order.
  - rewrite <- Hlen. apply split_le_combine.
  - rewrite <- Hlen, <- (length_rev bs), split_le_combine.
    apply rev_involutive.
Qed.

Lemma uint32_of_bytes_range (bs : list byte) :
  length bs = 4%nat -> is_uint32 (uint32_of_bytes bs).
Proof.
  intros Hlen. unfold uint32_of_bytes, is_uint32, UINT32_MODULUS.
  destruct byte_order.
  - pose proof (le_combine_bound bs) as Hb. rewrite Hlen in Hb. exact Hb.
  - pose proof (le_combine_bound (rev bs)) as Hb.
    rewrite length_rev, Hlen in Hb. exact Hb.
Qed.

Lemma length_Header_bytes (h : Packet.Header) :
  length (Packet.Header_bytes h) = Packet.sizeof_Header.
Proof.
  unfold Packet.Header_bytes.
  rewrite length_app, !length_uint32_bytes. reflexivity.
Qed.

Lemma Header_of_bytes_bytes (h : Packet.Header) :
  Packet.wf_Header h -> Packet.Header_of_bytes (Packet.Header_bytes h) = h.
Proof.
  intros [Hid Hty]. destruct h as [i ty]; simpl in *.
  unfold Packet.Header_of_bytes, Packet.Header_bytes; simpl.
  rewrite take_app_length' by (symmetry; apply length_uint32_bytes).
  rewrite drop_app_length' by (symmetry; apply length_uint32_bytes).
  rewrite take_ge by (rewrite length_uint32_bytes; lia).
  rewrite !uint32_of_bytes_bytes by assumption. reflexivity.
Qed.

Lemma Header_bytes_of_bytes (bs : list byte) :
  length bs = Packet.sizeof_Header ->
  Packet.Header_bytes (Packet.Header_of_bytes bs) = bs.
Proof.
  unfold Packet.sizeof_Header. intros Hlen.
  unfold Packet.Header_bytes, Packet.Header_of_bytes; simpl.
  rewrite !uint32_bytes_of_bytes
    by (rewrite ?length_take, ?length_drop; lia).
  rewrite (take_ge (drop 4 bs)) by (rewrite length_drop; lia).
  apply take_drop.
Qed.

Lemma Header_of_bytes_wf (bs : list byte) :
  length bs = Packet.sizeof_Header -> Packet.wf_Header (Packet.Header_of_bytes bs).
Proof.
  unfold Packet.sizeof_Header. intros Hlen. split; simpl;
    apply uint32_of_bytes_range; rewrite ?length_take, ?length_drop; lia.
Qed.

(** The wire format: the eight header bytes, then the payload. *)
Lemma serialize_packet_layout (p : Packet.t) :
  PacketHelper.serialize_packet p =
  Packet.Header_bytes (Packet.header p) ++ Packet.data p.
Proof.
  unfold PacketHelper.serialize_packet, memcpy, Packet.size.
  pose proof (length_Header_bytes (Packet.header p)) as Hh.
  set (hb := Packet.Header_bytes (Packet.header p)) in *.
  rewrite take_0, app_nil_l, Hh, Nat.add_0_l.
  rewrite take_app_length' by (symmetry; exact Hh).
  rewrite drop_app_ge by lia.
  rewrite !drop_replicate, Hh.
  replace (Packet.sizeof_Header + length (Packet.data p) - Packet.sizeof_Header
           - (Packet.sizeof_Header + length (Packet.data p) - Packet.sizeof_Header))%nat
    with 0%nat by lia.
  simpl. rewrite app_nil_r. reflexivity.
Qed.

Lemma length_serialize_packet (p : Packet.t) :
  length (PacketHelper.serialize_packet p) = Packet.size p.
Proof.
  rewrite serialize_packet_layout, length_app, length_Header_bytes. reflexivity.
Qed.
End RepresentationFacts.

(** ** The packet codec *)

Section CodecFacts.
Context `{Platform}.

Lemma deserialize_packet_short (bs : list byte) :
  (length bs < Packet.sizeof_Header)%nat ->
  PacketHelper.deserialize_packet bs = None.
Proof.
  intros Hlen. unfold PacketHelper.deserialize_packet.
  destruct (Nat.ltb_spec (length bs) Packet.sizeof_Header) as [_ | Hge];
    [reflexivity | lia].
Qed.

Lemma deserialize_packet_long (bs : list byte) :
  (Packet.sizeof_Header <= length bs)%nat ->
  PacketHelper.deserialize_packet bs =
  Some (Packet.mk (Packet.Header_of_bytes (take Packet.sizeof_Header bs))
                  (drop Packet.sizeof_Header bs)).
Proof.
  intros Hlen. unfold PacketHelper.deserialize_packet, Packet.putdata.
  destruct (Nat.ltb_spec (length bs) Packet.sizeof_Header) as [Hlt | _];
    [lia |].
  simpl Packet.header.
  rewrite (take_ge (drop Packet.sizeof_Header bs)) by (rewrite length_drop; lia).
  reflexivity.
Qed.
End CodecFacts.

(** The packet [{id: 1, type: 2, payload: "hi"}] on the wire. *)
Example serialize_packet_little_endian :
  PacketHelper.serialize_packet (H := Build_Platform LittleEndian)
    (Packet.mk (Packet.mkHeader 1 2) [Byte.x68; Byte.x69])
  = [Byte.x01; Byte.x00; Byte.x00; Byte.x00;
     Byte.x02; Byte.x00; Byte.x00; Byte.x00; Byte.x68; Byte.x69].
Proof. reflexivity. Qed.

Example serialize_packet_big_endian :
  PacketHelper.serialize_packet (H := Build_Platform BigEndian)
    (Packet.mk (Packet.mkHeader 1 2) [Byte.x68; Byte.x69])
  = [Byte.x00; Byte.x00; Byte.x00; Byte.x01;
     Byte.x00; Byte.x00; Byte.x00; Byte.x02; Byte.x68; Byte.x69].
Proof. reflexivity. Qed.

Example deserialize_packet_seven_bytes :
  PacketHelper.deserialize_packet (H := Build_Platform LittleEndian)
    (replicate 7 Byte.x01) = None.
Proof. reflexivity. Qed.

Example deserialize_packet_header_only :
  PacketHelper.deserialize_packet (H := Build_Platform LittleEndian)
    [Byte.x01; Byte.x00; Byte.x00; Byte.x00; Byte.x02; Byte.x00; Byte.x00; Byte.x00]
  = Some (Packet.mk (Packet.mkHeader 1 2) []).
Proof. reflexivity. Qed.

(** C2. Decoding the encoding of a packet succeeds and gives the packet
    back: same [id], same [type], same payload, whatever the payload (the
    empty one included) and whichever byte order the platform has.  The two
    header fields are [uint32] values. *)
Theorem deserialize_serialize_roundtrip `{Platform}
    (id type : Z) (P : list byte) :
  is_uint32 id -> is_uint32 type ->
  PacketHelper.deserialize_packet
    (PacketHelper.serialize_packet (Packet.mk (Packet.mkHeader id type) P))
  = Some (Packet.mk (Packet.mkHeader id type) P).
Proof.
  intros Hid Hty.
  set (h := Packet.mkHeader id type).
  assert (Hwf : Packet.wf_Header h) by (split; assumption).
  rewrite serialize_packet_layout; simpl Packet.header; simpl Packet.data.
  rewrite deserialize_packet_long
    by (rewrite length_app, length_Header_bytes; lia).
  rewrite take_app_length' by (symmetry; apply length_Header_bytes).
  rewrite drop_app_length' by (symmetry; apply length_Header_bytes).
  rewrite Header_of_bytes_bytes by exact Hwf. reflexivity.
Qed.

Lemma deserialize_serialize_roundtrip_witness :
  PacketHelper.deserialize_packet (H := Build_Platform LittleEndian)
    (PacketHelper.serialize_packet (H := Build_Platform LittleEndian)
       (Packet.mk (Packet.mkHeader 1 2) [Byte.x68; Byte.x69]))
  = Some (Packet.mk (Packet.mkHeader 1 2) [Byte.x68; Byte.x69]).
Proof.
  apply (@deserialize_serialize_roundtrip (Build_Platform LittleEndian) 1 2
           [Byte.x68; Byte.x69]);
    unfold is_uint32, UINT32_MODULUS; lia.
Defined.

(** C7. [deserialize_packet] returns no packet for every input shorter than
    eight bytes, the empty input included.  For every input of at least
    eight bytes it returns a packet whose header object holds the first
    eight bytes and whose payload is the rest, which may be empty. *)
Theorem deserialize_packet_spec `{Platform} (bs : list byte) :
  ((length bs < 8)%nat -> PacketHelper.deserialize_packet bs = None) /\
  ((8 <= length bs)%nat ->
   exists p : Packet.t,
     PacketHelper.deserialize_packet bs = Some p /\
     Packet.Header_bytes (Packet.header p) = take 8 bs /\
     Packet.data p = drop 8 bs).
Proof.
  split.
  - apply deserialize_packet_short.
  - intros Hlen. eexists. split; [apply deserialize_packet_long; exact Hlen |].
    simpl. split; [| reflexivity].
    apply Header_bytes_of_bytes. rewrite length_take.
    unfold Packet.sizeof_Header. lia.
Qed.

Lemma deserialize_packet_spec_witness :
  PacketHelper.deserialize_packet (H := Build_Platform BigEndian) [] = None /\
  exists p : Packet.t,
    PacketHelper.deserialize_packet (H := Build_Platform BigEndian)
      (replicate 8 Byte.xff) = Some p /\
    Packet.Header_bytes (H := Build_Platform BigEndian) (Packet.header p)
      = take 8 (replicate 8 Byte.xff) /\
    Packet.data p = drop 8 (replicate 8 Byte.xff).
Proof.
  split.
  - apply (proj1 (@deserialize_packet_spec (Build_Platform BigEndian) [])).
    simpl. lia.
  - apply (proj2 (@deserialize_packet_spec (Build_Platform BigEndian)
                    (replicate 8 Byte.xff))).
    simpl. lia.
Defined.

(** A four-byte payload read as a [uint32], and payloads of other sizes. *)
Example unpack_data_uint32 :
  let TC := @uint32_TriviallyCopyable (Build_Platform LittleEndian) in
  let payload bs := Packet.mk (Packet.mkHeader 0 0) bs in
  Packet.unpack_data (H := TC)
    (payload [Byte.x78; Byte.x56; Byte.x34; Byte.x12]) = Some 305419896 /\
  Packet.unpack_data (H := TC) (payload []) = None /\
  Packet.unpack_data (H := TC) (payload (replicate 5 Byte.x00)) = None.
Proof. repeat split. Qed.

(** C8. For a trivially copyable [T], [unpack_data<T>] returns a value
    exactly when the payload has [sizeof(T)] bytes; the value returned then
    has the payload as its bytes; with any other payload length the result
    is absent, [std::nullopt], and nothing else happens. *)
Theorem unpack_data_spec {T : Type} `{TriviallyCopyable T} (p : Packet.t) :
  (is_Some (Packet.unpack_data (T := T) p) <-> length (Packet.data p) = sizeof T) /\
  (forall v : T, Packet.unpack_data p = Some v -> object_bytes v = Packet.data p) /\
  (length (Packet.data p) <> sizeof T -> Packet.unpack_data (T := T) p = None).
Proof.
  unfold Packet.unpack_data.
  pose proof (sizeof_pos (T := T)) as Hpos.
  destruct (Nat.eqb_spec (length (Packet.data p)) (sizeof T)) as [Heq | Hne].
  - assert (Hne : container_empty (Packet.data p) = false).
    { destruct (Packet.data p); [simpl in Heq; lia | reflexivity]. }
    rewrite Hne. simpl. repeat split.
    + intros _. exact Heq.
    + intros _. eexists. reflexivity.
    + intros v Hv. injection Hv as <-.
      rewrite take_ge by lia. apply object_bytes_of. exact Heq.
    + intros Hcontra. contradiction.
  - rewrite orb_true_r. repeat split.
    + intros [v Hv]. discriminate Hv.
    + intros Heq. contradiction.
    + intros v Hv. discriminate Hv.
Qed.

Lemma unpack_data_spec_witness :
  let TC := @uint32_TriviallyCopyable (Build_Platform LittleEndian) in
  let p := Packet.mk (Packet.mkHeader 0 0) [Byte.x2a; Byte.x00; Byte.x00; Byte.x00] in
  let q := Packet.mk (Packet.mkHeader 0 0) [Byte.x2a] in
  is_Some (Packet.unpack_data (H := TC) p) /\
  (forall v : Z, Packet.unpack_data (H := TC) p = Some v ->
                 object_bytes (TriviallyCopyable := TC) v = Packet.data p) /\
  Packet.unpack_data (H := TC) q = None.
Proof.
  intros TC p q.
  destruct (@unpack_data_spec Z TC p) as [Hiff [Hbytes _]].
  destruct (@unpack_data_spec Z TC q) as [_ [_ Hnone]].
  split; [apply Hiff; reflexivity |].
  split; [exact Hbytes |].
  apply Hnone. simpl. lia.
Defined.

(** ** The event queue *)

Section QueueFacts.
Context {T : Type} `{Movable T}.

Lemma pop_front_cons (x : T) (queue : list T) :
  TSQueue.pop_front (x :: queue) = Some (x, queue).
Proof. reflexivity. Qed.

Lemma pop_front_nil : TSQueue.pop_front (T := T) [] = None.
Proof. reflexivity. Qed.

Lemma push_back_all_app (items queue : list T) :
  TSQueue.push_back_all items queue = queue ++ items.
Proof.
  unfold TSQueue.push_back_all.
  revert queue. induction items as [| x items IH]; intros queue; simpl.
  - symmetry. apply app_nil_r.
  - rewrite IH. unfold TSQueue.push_back.
    rewrite <- app_assoc. reflexivity.
Qed.

Lemma pop_front_n_app (items rest : list T) :
  TSQueue.pop_front_n (length items) (items ++ rest) = Some (items, rest).
Proof.
  induction items as [| x items IH]; simpl.
  - reflexivity.
  - rewrite IH. reflexivity.
Qed.

(** Whatever the interleaving of [push_back] and [pop_front] calls, the
    items popped followed by the items still queued are the items that
    were queued at the start followed by the items pushed. *)
Lemma run_ops_fifo (ops : list (TSQueue.Op T)) (queue popped left : list T) :
  TSQueue.run_ops ops queue = Some (popped, left) ->
  popped ++ left = queue ++ TSQueue.pushed ops.
Proof.
  revert queue popped left.
  induction ops as [| [x |] ops IH]; intros queue popped left Hrun; simpl in *.
  - injection Hrun as <- <-. rewrite app_nil_r. reflexivity.
  - apply IH in Hrun. rewrite Hrun. unfold TSQueue.push_back.
    rewrite <- app_assoc. reflexivity.
  - destruct queue as [| y queue]; simpl in Hrun; [discriminate Hrun |].
    destruct (TSQueue.run_ops ops queue) as [[ts q'] |] eqn:Hrest;
      [| discriminate Hrun].
    injection Hrun as <- <-. apply IH in Hrest. simpl. rewrite Hrest.
    reflexivity.
Qed.

(** [pop_back] on a queue of two or more items: the item returned is the
    back one, the item removed is the front one, and the back slot keeps
    what the move left in it. *)
Lemma pop_back_two_or_more (x y : T) (middle : list T) :
  TSQueue.pop_back (x :: middle ++ [y]) = Some (y, middle ++ [moved_from y]).
Proof.
  unfold TSQueue.pop_back, TSQueue.move_from_back.
  change (x :: middle ++ [y]) with ((x :: middle) ++ [y]).
  rewrite last_snoc, removelast_last. reflexivity.
Qed.

Lemma pop_back_singleton (x : T) : TSQueue.pop_back [x] = Some (x, []).
Proof. reflexivity. Qed.
End QueueFacts.

(** C3. Events pushed to the back of an empty event queue come out of
    [pop_front] in the order they were pushed: popping as many times as
    there were pushes returns exactly the pushed sequence and leaves the
    queue empty, so none is lost and none comes twice. *)
Theorem push_back_pop_front_fifo (es : list Event.t) :
  TSQueue.pop_front_n (length es) (TSQueue.push_back_all es []) = Some (es, []).
Proof.
  rewrite push_back_all_app, app_nil_l.
  rewrite <- (app_nil_r es) at 2.
  apply pop_front_n_app.
Qed.

(** C4, at a queue of two events: [pop_back] returns the back event but
    removes the front one; the queue is left holding the moved-from back
    event instead of the front event. *)
Theorem pop_back_removes_front_event :
  let E1 := Event.mk 1 EventType.Connect None in
  let E2 := Event.mk 1 EventType.Receive (Some (Packet.mk (Packet.mkHeader 1 2) [])) in
  TSQueue.pop_back [E1; E2] = Some (E2, [Event.mk 1 EventType.Receive None]) /\
  TSQueue.pop_back [E1; E2] <> Some (E2, [E1]).
Proof.
  intros E1 E2. split.
  - reflexivity.
  - intros Heq. discriminate Heq.
Qed.

(** ** The client *)

Section ClientFacts.
Context `{Platform}.

Lemma client_exec_step_events (i : Client.Step) (s : Client.t * World) :
  Client.events (fst (Client.exec_step i s)) =
  Client.events (fst s) ++
    match i with Client.events_push_back e => [e] | _ => [] end.
Proof.
  destruct s as [c w], i; simpl; rewrite ?app_nil_r; reflexivity.
Qed.

Lemma client_run_steps_events (steps : list Client.Step) (s : Client.t * World) :
  Client.events (fst (Client.run_steps steps s)) =
  Client.events (fst s) ++
    flat_map (fun i => match i with Client.events_push_back e => [e] | _ => [] end)
      steps.
Proof.
  unfold Client.run_steps. revert s.
  induction steps as [| i steps IH]; intros s; simpl.
  - rewrite app_nil_r. reflexivity.
  - rewrite IH, client_exec_step_events, <- app_assoc. reflexivity.
Qed.

Lemma client_on_event_pushes (event : ENet.ENetEvent) :
  Forall (fun i => forall e, i = Client.events_push_back e -> Event.peer_id e = 0)
    (Client.on_event event).
Proof.
  unfold Client.on_event.
  destruct (ENet.type event); repeat constructor;
    intros e He; try discriminate He; injection He as <-; reflexivity.
Qed.

Lemma client_handle_events (event : ENet.ENetEvent) (s : Client.t * World) :
  exists pushed : list Event.t,
    Client.events (fst (Client.handle event s)) = Client.events (fst s) ++ pushed /\
    Forall (fun e => Event.peer_id e = 0) pushed.
Proof.
  unfold Client.handle. rewrite client_run_steps_events.
  eexists. split; [reflexivity |].
  pose proof (client_on_event_pushes event) as Hall.
  induction Hall as [| i steps Hi _ IH]; simpl; [constructor |].
  apply Forall_app. split; [| exact IH].
  destruct i; constructor; [apply Hi; reflexivity | constructor].
Qed.

Lemma client_service_events (pending : list ENet.ENetEvent) (s : Client.t * World) :
  exists pushed : list Event.t,
    Client.events (fst (Client.service pending s)) = Client.events (fst s) ++ pushed /\
    Forall (fun e => Event.peer_id e = 0) pushed.
Proof.
  unfold Client.service. revert s.
  induction pending as [| event pending IH]; intros s; simpl.
  - exists []. rewrite app_nil_r. split; [reflexivity | constructor].
  - destruct (IH (Client.handle event s)) as (rest & Hrest & Hall).
    destruct (client_handle_events event s) as (first & Hfirst & Hall1).
    exists (first ++ rest). rewrite Hrest, Hfirst, <- app_assoc.
    split; [reflexivity | apply Forall_app; split; assumption].
Qed.
End ClientFacts.

(** What [poll_event] returns was at the front of the queue. *)
Lemma client_poll_event_front (c c' : Client.t) (e : Event.t) :
  Client.poll_event c = (Some e, c') ->
  Client.events c = e :: Client.events c'.
Proof.
  unfold Client.poll_event.
  destruct (Client.events c) as [| x q]; simpl; intros Hpoll.
  - discriminate Hpoll.
  - injection Hpoll as <- <-. reflexivity.
Qed.

(** C10. Whatever notifications the engine delivers, in whatever batches,
    every event that the client's network loop appends to the event queue
    has [peer_id] 0, be it a [Connect], a [Receive] or a [Disconnect]. *)
Theorem client_events_peer_id_zero `{Platform}
    (batches : list (list ENet.ENetEvent)) (c : Client.t) (w : World) :
  exists pushed : list Event.t,
    Client.events (fst (Client.network_thread_loop batches (c, w))) =
      Client.events c ++ pushed /\
    Forall (fun e => Event.peer_id e = 0) pushed.
Proof.
  change (Client.events c) with (Client.events (fst (c, w))).
  generalize (c, w) as s. clear c w.
  induction batches as [| pending batches IH]; intros s; simpl.
  - exists []. rewrite app_nil_r. split; [reflexivity | constructor].
  - destruct (Client.running (fst s)).
    + destruct (IH (Client.service pending s)) as (rest & Hrest & Hall).
      destruct (client_service_events pending s) as (first & Hfirst & Hall1).
      exists (first ++ rest). rewrite Hrest, Hfirst, <- app_assoc.
      split; [reflexivity | apply Forall_app; split; assumption].
    + exists []. rewrite app_nil_r. split; [reflexivity | constructor].
Qed.

Section ClientInterleaving.
Context `{Platform}.

Lemma last_conn_snoc (evs : list Event.t) (e : Event.t) :
  Client.last_conn (evs ++ [e]) =
  match Client.flag_of_event e with
  | Some b => Some b
  | None => Client.last_conn evs
  end.
Proof.
  induction evs as [| a evs IH]; simpl.
  - destruct (Client.flag_of_event e); reflexivity.
  - rewrite IH. destruct (Client.flag_of_event e); reflexivity.
Qed.

Lemma store_then_push_pending (steps : list Client.Step) :
  forall armed : option bool,
    Client.store_then_push armed steps -> Client.pending_push steps = armed.
Proof.
  induction steps as [| i steps IH]; intros armed Hord; simpl in *.
  - symmetry. exact Hord.
  - destruct i; try (apply IH; exact Hord).
    + destruct Hord as [-> _]. reflexivity.
    + destruct (Client.flag_of_event e).
      * destruct Hord as [-> _]. reflexivity.
      * apply IH. exact Hord.
Qed.

Lemma store_then_push_app (l r : list Client.Step) :
  forall armed : option bool,
    Client.store_then_push armed l -> Client.store_then_push None r ->
    Client.store_then_push armed (l ++ r).
Proof.
  induction l as [| i l IH]; intros armed Hl Hr; simpl in *.
  - subst armed. exact Hr.
  - destruct i; try (apply IH; assumption).
    + destruct Hl as [Ha Hl]. split; [exact Ha | apply IH; assumption].
    + destruct (Client.flag_of_event e).
      * destruct Hl as [Ha Hl]. split; [exact Ha | apply IH; assumption].
      * apply IH; assumption.
Qed.

Lemma on_event_store_then_push (event : ENet.ENetEvent) :
  Client.store_then_push None (Client.on_event event).
Proof.
  unfold Client.on_event. destruct (ENet.type event); simpl; auto.
Qed.

Lemma notifications_store_then_push (notifications : list ENet.ENetEvent) :
  Client.store_then_push None (flat_map Client.on_event notifications).
Proof.
  induction notifications as [| event notifications IH]; simpl.
  - reflexivity.
  - apply store_then_push_app; [apply on_event_store_then_push | exact IH].
Qed.

(** The invariant of an interleaved execution: between a store and its push
    the flag has the value stored; otherwise it agrees with the events
    pushed so far. *)
Lemma interleave_flag_consistent (schedule : list Client.Turn) :
  forall (armed : option bool) (pending : list Client.Step)
         (s : Client.t * World) (k : Client.Consumer),
    Client.store_then_push armed pending ->
    Forall Client.flag_consistent (Client.seen k) ->
    match armed with
    | Some b => Client.connected (fst s) = b
    | None => Client.agrees (Client.polled k ++ Client.events (fst s))
                (Client.connected (fst s))
    end ->
    Forall Client.flag_consistent
      (Client.seen (fst (Client.interleave schedule pending s k))).
Proof.
  induction schedule as [| turn schedule IH]; intros armed pending s k Hord Hk Hinv.
  - exact Hk.
  - destruct turn; simpl.
    + (* the network thread runs one step *)
      destruct pending as [| i pending].
      { apply (IH armed); assumption. }
      destruct s as [c w], i; simpl in Hord, Hinv |- *.
      * apply (IH armed); [exact Hord | exact Hk |].
        destruct armed; exact Hinv.
      * destruct Hord as [-> Hord]. apply (IH (Some b)); [exact Hord | exact Hk |].
        reflexivity.
      * destruct (Client.flag_of_event e) as [b |] eqn:Hflag.
        -- destruct Hord as [-> Hord]. apply (IH None); [exact Hord | exact Hk |].
           simpl. unfold TSQueue.push_back, Client.agrees.
           rewrite app_assoc, last_conn_snoc, Hflag.
           intros b' Hb'. injection Hb' as <-. exact Hinv.
        -- apply (IH armed); [exact Hord | exact Hk |].
           destruct armed; simpl; [exact Hinv |].
           unfold TSQueue.push_back, Client.agrees.
           rewrite app_assoc, last_conn_snoc, Hflag. exact Hinv.
      * apply (IH armed); [exact Hord | exact Hk |].
        destruct armed; exact Hinv.
      * apply (IH armed); [exact Hord | exact Hk |].
        destruct armed; exact Hinv.
    + (* the consumer polls *)
      destruct s as [c w]. unfold Client.poll_event. simpl in Hinv |- *.
      destruct (Client.events c) as [| e q] eqn:Hevents; simpl.
      { apply (IH armed); [exact Hord | exact Hk |]. simpl.
        rewrite Hevents. exact Hinv. }
      apply (IH armed); [exact Hord | exact Hk |]. simpl.
      destruct armed; [exact Hinv |].
      rewrite <- app_assoc. exact Hinv.
    + (* the consumer loads the flag *)
      apply (IH armed); [exact Hord | | exact Hinv].
      simpl. apply Forall_app. split; [exact Hk |].
      constructor; [| constructor].
      unfold Client.flag_consistent. simpl.
      rewrite (store_then_push_pending pending armed Hord).
      destruct armed; exact Hinv.
Qed.

(** What handling a CONNECT, DISCONNECT or TIMEOUT notification does to
    the flag and to the queue. *)
Lemma client_handle_connect (event : ENet.ENetEvent) (s : Client.t * World) :
  ENet.type event = ENet.ENET_EVENT_TYPE_CONNECT ->
  Client.connected (fst (Client.handle event s)) = true /\
  Client.events (fst (Client.handle event s)) =
    Client.events (fst s) ++ [Event.mk 0 EventType.Connect None].
Proof.
  intros Hty. destruct s as [c w]. unfold Client.handle, Client.on_event.
  rewrite Hty. split; reflexivity.
Qed.

Lemma client_handle_disconnect (event : ENet.ENetEvent) (s : Client.t * World) :
  is_disconnect event = true ->
  Client.connected (fst (Client.handle event s)) = false /\
  Client.events (fst (Client.handle event s)) =
    Client.events (fst s) ++ [Event.mk 0 EventType.Disconnect None].
Proof.
  intros Hty. destruct s as [c w].
  unfold Client.handle, Client.on_event, is_disconnect in *.
  destruct (ENet.type event); try discriminate Hty; split; reflexivity.
Qed.
End ClientInterleaving.

(** C6, amended. Handling a CONNECT notification sets [connected] and
    appends a [Connect] event; handling DISCONNECT or TIMEOUT clears it and
    appends a [Disconnect] event; in the steps of the loop each such push
    comes after the store of the matching value, with no other store in
    between.  Hence, for any notifications and with the consumer polling
    and loading the flag at any points between the steps of the loop,
    every load finds the flag consistent: it goes with the newest [Connect]
    or [Disconnect] event pushed so far, received or still queued, or,
    between a store and its push, with the event about to be pushed.  The
    flag is taken to agree with the queue at the start, as it does on a
    client whose queue is empty. *)
Theorem connected_flag_stored_before_event `{Platform}
    (notifications : list ENet.ENetEvent) (schedule : list Client.Turn)
    (c : Client.t) (w : World) :
  Client.agrees (Client.events c) (Client.connected c) ->
  let steps := flat_map Client.on_event notifications in
  let k := fst (Client.interleave schedule steps (c, w) (Client.mkConsumer [] [])) in
  (forall (event : ENet.ENetEvent) (s : Client.t * World),
     ENet.type event = ENet.ENET_EVENT_TYPE_CONNECT ->
     Client.connected (fst (Client.handle event s)) = true /\
     Client.events (fst (Client.handle event s)) =
       Client.events (fst s) ++ [Event.mk 0 EventType.Connect None]) /\
  (forall (event : ENet.ENetEvent) (s : Client.t * World),
     is_disconnect event = true ->
     Client.connected (fst (Client.handle event s)) = false /\
     Client.events (fst (Client.handle event s)) =
       Client.events (fst s) ++ [Event.mk 0 EventType.Disconnect None]) /\
  Client.store_then_push None steps /\
  Forall Client.flag_consistent (Client.seen k).
Proof.
  intros Hstart steps k.
  split; [intros event s; apply client_handle_connect |].
  split; [intros event s; apply client_handle_disconnect |].
  split; [apply notifications_store_then_push |].
  apply (interleave_flag_consistent schedule None).
  - apply notifications_store_then_push.
  - constructor.
  - exact Hstart.
Qed.

Lemma connected_flag_stored_before_event_witness :
  let P := Build_Platform LittleEndian in
  let ev ty := ENet.mkEvent ty 0%nat [] in
  let notifications := [ev ENet.ENET_EVENT_TYPE_CONNECT; ev ENet.ENET_EVENT_TYPE_RECEIVE;
                        ev ENet.ENET_EVENT_TYPE_DISCONNECT_TIMEOUT] in
  let schedule :=
    [Client.NetworkStep; Client.LoadConnected; Client.NetworkStep;
     Client.CallPollEvent; Client.LoadConnected] ++
    replicate 6 Client.NetworkStep ++
    [Client.LoadConnected; Client.NetworkStep; Client.CallPollEvent;
     Client.CallPollEvent; Client.LoadConnected] in
  let c := Client.mk (Some 0%nat) false [] true false in
  let k := fst (Client.interleave schedule (flat_map Client.on_event notifications)
                  (c, empty_world) (Client.mkConsumer [] [])) in
  map Client.flag (Client.seen k) = [true; true; false; false] /\
  map Client.got (Client.seen k) =
    [ []; [Event.mk 0 EventType.Connect None];
      [Event.mk 0 EventType.Connect None];
      [Event.mk 0 EventType.Connect None; Event.mk 0 EventType.Receive None;
       Event.mk 0 EventType.Disconnect None] ] /\
  Forall Client.flag_consistent (Client.seen k).
Proof.
  intros P ev notifications schedule c k.
  split; [reflexivity |]. split; [reflexivity |].
  assert (Hstart : Client.agrees (Client.events c) (Client.connected c)).
  { intros b Hb. discriminate Hb. }
  exact (proj2 (proj2 (proj2
    (@connected_flag_stored_before_event P notifications schedule c empty_world
       Hstart)))).
Defined.

(** C6 as stated fails when the loop handles a later notification before
    the consumer polls: with CONNECT and then DISCONNECT handled, the
    consumer receives the [Connect] event and reads [false] from the flag. *)
Lemma connected_flag_stale_counterexample :
  let P := Build_Platform LittleEndian in
  let ev ty := ENet.mkEvent ty 0%nat [] in
  let notifications := [ev ENet.ENET_EVENT_TYPE_CONNECT;
                        ev ENet.ENET_EVENT_TYPE_DISCONNECT] in
  let schedule := replicate 7 Client.NetworkStep ++
                  [Client.CallPollEvent; Client.LoadConnected] in
  let c := Client.mk (Some 0%nat) false [] true false in
  let k := fst (Client.interleave schedule (flat_map Client.on_event notifications)
                  (c, empty_world) (Client.mkConsumer [] [])) in
  ~ Forall Client.flag_matches_received (Client.seen k).
Proof.
  intros P ev notifications schedule c k Hall.
  assert (Hseen : Client.seen k =
            [Client.mkObservation [Event.mk 0 EventType.Connect None]
               [Event.mk 0 EventType.Disconnect None] [] false])
    by reflexivity.
  rewrite Hseen in Hall. apply Forall_inv in Hall.
  unfold Client.flag_matches_received in Hall. simpl in Hall.
  apply Forall_inv in Hall. specialize (Hall true eq_refl). discriminate Hall.
Qed.

(** Were the event pushed before the flag is stored, a consumer could
    receive [Connect] with the flag still [false] and no later
    notification to account for it. *)
Example push_before_store_observable :
  let connect := Event.mk 0 EventType.Connect None in
  let c := Client.mk (Some 0%nat) false [] true false in
  ~ Forall Client.flag_consistent
      (Client.seen
         (fst (Client.interleave
                 [Client.NetworkStep; Client.CallPollEvent; Client.LoadConnected;
                  Client.NetworkStep]
                 [Client.events_push_back connect; Client.store_connected true]
                 (c, empty_world) (Client.mkConsumer [] [])))).
Proof.
  intros connect c Hall. simpl in Hall. apply Forall_inv in Hall.
  unfold Client.flag_consistent in Hall. simpl in Hall.
  specialize (Hall true eq_refl). discriminate Hall.
Qed.

(** ** The server *)

Section ServerFacts.
Context `{Platform}.

(** What the guard of [send] and [broadcast] does: while the server is
    running, both return at once. *)
Lemma server_send_while_running (o : ENet.Oracle) (client_id : Z)
    (packet : Packet.t) (flag : Z) (s : Server.t) (w : World) :
  Server.running s = true ->
  Server.send o client_id packet flag s w = (s, w) /\
  Server.broadcast o packet flag s w = (s, w).
Proof.
  intros Hrun. unfold Server.send, Server.broadcast. rewrite Hrun. split; reflexivity.
Qed.

Lemma transmissions_enet_call (c : ENet.Call) (w : World) :
  transmissions (enet_call c w) =
  transmissions w ++ (if ENet.transmits c then [c] else []).
Proof.
  unfold transmissions, enet_call. simpl. rewrite filter_app. f_equal.
  destruct c; reflexivity.
Qed.

Lemma transmissions_LOG_SERVER (b : bool) (m : LogLine) (w : World) :
  transmissions (LOG_SERVER b m w) = transmissions w.
Proof. destruct b; reflexivity. Qed.

Lemma peer_data_LOG_SERVER (b : bool) (m : LogLine) (w : World) :
  peer_data (LOG_SERVER b m w) = peer_data w.
Proof. destruct b; reflexivity. Qed.

Lemma enet_calls_LOG_SERVER (b : bool) (m : LogLine) (w : World) :
  enet_calls (LOG_SERVER b m w) = enet_calls w.
Proof. destruct b; reflexivity. Qed.

(** With the server stopped, [broadcast] passes the buffer on. *)
Lemma server_broadcast_while_stopped (o : ENet.Oracle)
    (packet : Packet.t) (flag : Z) (s : Server.t) (w : World) :
  Server.running s = false -> ENet.packet_created o = true ->
  transmissions (snd (Server.broadcast o packet flag s w)) =
  transmissions w ++
    [ENet.enet_host_broadcast 0 (PacketHelper.serialize_packet packet)].
Proof.
  intros Hrun Hok. unfold Server.broadcast. rewrite Hrun, Hok. simpl.
  rewrite transmissions_LOG_SERVER, !transmissions_enet_call. simpl.
  rewrite app_nil_r. reflexivity.
Qed.

(** With the server stopped, [send] to a registered client passes the
    buffer on. *)
Lemma server_send_while_stopped (o : ENet.Oracle) (client_id : Z) (peer : Peer)
    (packet : Packet.t) (flag : Z) (s : Server.t) (w : World) :
  Server.running s = false -> ENet.packet_created o = true ->
  Server.clients s !! client_id = Some peer ->
  transmissions (snd (Server.send o client_id packet flag s w)) =
  transmissions w ++
    [ENet.enet_peer_send (Some peer) 0 (PacketHelper.serialize_packet packet)].
Proof.
  intros Hrun Hok Hpeer. unfold Server.send. rewrite Hrun, Hok, Hpeer. simpl.
  destruct (ENet.peer_send_ok o); simpl;
    rewrite transmissions_LOG_SERVER, !transmissions_enet_call; simpl;
    rewrite ?app_nil_r; reflexivity.
Qed.
End ServerFacts.

(** C1, evaluated: with [running] false, [broadcast] on a server that was
    never started, and [send] to client 1 on a server that was started,
    accepted a connection and was stopped, both pass the serialized packet
    to the engine. *)
Theorem stopped_server_passes_buffer_to_engine `{Platform} :
  let o := ENet.mkOracle true true in
  let packet := Packet.mk (Packet.mkHeader 3 4) [Byte.x6f; Byte.x6b] in
  let buffer := PacketHelper.serialize_packet packet in
  let s0 := Server.init false in
  let st :=
    Server.network_thread_loop
      [[ENet.mkEvent ENet.ENET_EVENT_TYPE_CONNECT 7%nat []]]
      (Server.start s0, empty_world) in
  let s1 := Server.stop (fst st) in
  (Server.running s0 = false /\
   transmissions (snd (Server.broadcast o packet RELIABLE s0 empty_world)) =
     [ENet.enet_host_broadcast 0 buffer]) /\
  (Server.running s1 = false /\
   transmissions (snd (Server.send o 1 packet RELIABLE s1 (snd st))) =
     [ENet.enet_peer_send (Some 7%nat) 0 buffer]).
Proof.
  intros o packet buffer s0 st s1. split; (split; [reflexivity |]).
  - apply (server_broadcast_while_stopped o packet RELIABLE s0 empty_world);
      reflexivity.
  - apply (server_send_while_stopped o 1 7%nat packet RELIABLE s1 (snd st));
      reflexivity.
Qed.

(** C9. A [send] on a client whose [connected] flag is clear, and a [send]
    on a server to an id that is not in [clients], return normally, leave
    the object as it was, and pass no buffer on for transmission: the client
    makes no engine call at all, the server makes no [enet_peer_send] and no
    [enet_host_broadcast] call.  The per-peer data of the engine is left
    alone too, so later calls find what they would have found. *)
Theorem failed_send_is_noop `{Platform} (packet : Packet.t) (flag : Z) (w : World) :
  (forall c : Client.t,
     Client.connected c = false ->
     let r := Client.send packet flag c w in
     fst r = c /\ enet_calls (snd r) = enet_calls w /\
     peer_data (snd r) = peer_data w) /\
  (forall (s : Server.t) (o : ENet.Oracle) (client_id : Z),
     Server.clients s !! client_id = None ->
     let r := Server.send o client_id packet flag s w in
     fst r = s /\ transmissions (snd r) = transmissions w /\
     peer_data (snd r) = peer_data w).
Proof.
  split.
  - intros c Hc. unfold Client.send. rewrite Hc. simpl.
    rewrite enet_calls_LOG_SERVER, peer_data_LOG_SERVER. auto.
  - intros s o client_id Hnone. unfold Server.send.
    destruct (Server.running s); [simpl; auto |].
    destruct (ENet.packet_created o); simpl.
    + rewrite Hnone. simpl.
      rewrite transmissions_LOG_SERVER, peer_data_LOG_SERVER,
        transmissions_enet_call. simpl. rewrite app_nil_r. auto.
    + rewrite transmissions_LOG_SERVER, peer_data_LOG_SERVER,
        transmissions_enet_call. simpl. rewrite app_nil_r. auto.
Qed.

Lemma failed_send_is_noop_witness :
  let P := Build_Platform LittleEndian in
  let packet := Packet.mk (Packet.mkHeader 1 2) [Byte.x68; Byte.x69] in
  let c := Client.mk (Some 0%nat) true [] true false in
  let s := Server.stop
             (fst (Server.network_thread_loop
                     [[ENet.mkEvent ENet.ENET_EVENT_TYPE_CONNECT 7%nat []]]
                     (Server.start (Server.init true), empty_world))) in
  let o := ENet.mkOracle true true in
  let rc := Client.send packet RELIABLE c empty_world in
  let rs := Server.send o 2 packet RELIABLE s empty_world in
  (fst rc = c /\ enet_calls (snd rc) = [] /\ peer_data (snd rc) = ∅) /\
  (fst rs = s /\ transmissions (snd rs) = [] /\ peer_data (snd rs) = ∅).
Proof.
  intros P packet c s o rc rs.
  destruct (@failed_send_is_noop P packet RELIABLE empty_world) as [Hc Hs].
  split.
  - apply (Hc c). reflexivity.
  - apply (Hs s o 2). reflexivity.
Defined.

Section RegistryFacts.
Context `{Platform}.

Lemma connect_ids_app (q r : list Event.t) :
  Server.connect_ids (q ++ r) = Server.connect_ids q ++ Server.connect_ids r.
Proof. unfold Server.connect_ids. apply flat_map_app. Qed.

Lemma connects_cons (event : ENet.ENetEvent) (pending : list ENet.ENetEvent) :
  Server.connects (event :: pending) =
  if Server.is_connect event then S (Server.connects pending)
  else Server.connects pending.
Proof.
  unfold Server.connects. rewrite filter_cons.
  destruct (decide (Server.is_connect event = true)) as [Hc | Hc].
  - rewrite Hc. reflexivity.
  - destruct (Server.is_connect event); [contradiction | reflexivity].
Qed.

Lemma connects_app (l k : list ENet.ENetEvent) :
  Server.connects (l ++ k) = (Server.connects l + Server.connects k)%nat.
Proof. unfold Server.connects. rewrite filter_app, length_app. reflexivity. Qed.

(** One notification: a CONNECT hands out [curid] and increments it, the
    others leave both the ids handed out and [curid] alone. *)
Lemma server_handle_ids (event : ENet.ENetEvent) (s : Server.t) (w : World) :
  let s' := fst (Server.handle event (s, w)) in
  Server.connect_ids (Server.events s') =
    Server.connect_ids (Server.events s) ++
      (if Server.is_connect event then [Server.curid s] else []) /\
  Server.curid s' =
    (if Server.is_connect event then to_uint32 (Server.curid s + 1)
     else Server.curid s) /\
  Server.running s' = Server.running s.
Proof.
  unfold Server.handle, Server.is_connect.
  destruct (ENet.type event); simpl;
    unfold TSQueue.push_back; rewrite ?connect_ids_app, ?app_nil_r; auto.
Qed.

Lemma server_service_ids (pending : list ENet.ENetEvent) :
  forall st : Server.t * World,
    let s' := fst (Server.service pending st) in
    Server.connect_ids (Server.events s') =
      Server.connect_ids (Server.events (fst st)) ++
        Server.ids_from (Server.curid (fst st)) (Server.connects pending) /\
    Server.running s' = Server.running (fst st).
Proof.
  unfold Server.service.
  induction pending as [| event pending IH]; intros [s w]; cbn [foldl fst].
  - simpl. rewrite app_nil_r. auto.
  - destruct (server_handle_ids event s w) as (Hids & Hcur & Hrun).
    destruct (IH (Server.handle event (s, w))) as [IHids IHrun].
    rewrite IHids, IHrun, Hids, Hcur, Hrun, connects_cons, <- app_assoc.
    destruct (Server.is_connect event); auto.
Qed.

(** A running server goes through every batch. *)
Lemma server_loop_running (batches : list (list ENet.ENetEvent)) :
  forall st : Server.t * World,
    Server.running (fst st) = true ->
    Server.network_thread_loop batches st = Server.service (concat batches) st.
Proof.
  induction batches as [| pending batches IH]; intros st Hrun; simpl.
  - reflexivity.
  - rewrite Hrun, IH.
    + unfold Server.service. rewrite foldl_app. reflexivity.
    + destruct (server_service_ids pending st) as [_ ->]. exact Hrun.
Qed.

Lemma ids_from_no_wrap (n : nat) :
  forall c : Z,
    0 <= c -> c + Z.of_nat n <= UINT32_MODULUS ->
    Server.ids_from c n = map (fun i => c + Z.of_nat i) (seq 0 n).
Proof.
  unfold UINT32_MODULUS.
  induction n as [| n IH]; intros c Hc Hn; [reflexivity |].
  cbn [Server.ids_from seq map]. f_equal; [lia |].
  destruct n as [| n]; [reflexivity |].
  assert (Hsmall : to_uint32 (c + 1) = c + 1).
  { unfold to_uint32, UINT32_MODULUS. apply Z.mod_small. lia. }
  rewrite Hsmall, IH by lia.
  rewrite <- seq_shift, map_map. apply map_ext. intros i. lia.
Qed.

Lemma ids_from_lookup (n : nat) :
  forall (c : Z) (i : nat),
    is_uint32 c -> (i < n)%nat ->
    Server.ids_from c n !! i = Some (to_uint32 (c + Z.of_nat i)).
Proof.
  induction n as [| n IH]; intros c i Hc Hi; [lia |].
  destruct i as [| i]; cbn [Server.ids_from].
  - simpl. rewrite Z.add_0_r. unfold to_uint32. rewrite Z.mod_small; auto.
  - change ((c :: Server.ids_from (to_uint32 (c + 1)) n) !! S i)
      with (Server.ids_from (to_uint32 (c + 1)) n !! i).
    rewrite IH.
    + f_equal. unfold to_uint32. rewrite Zplus_mod_idemp_l. f_equal. lia.
    + unfold is_uint32, to_uint32, UINT32_MODULUS. apply Z.mod_pos_bound. lia.
    + lia.
Qed.

Lemma first_ids_claimed (n : nat) :
  Server.distinct_positive_increasing (map Z.of_nat (seq 1 n)).
Proof.
  unfold Server.distinct_positive_increasing.
  assert (Hsorted : forall a, StronglySorted Z.lt (map Z.of_nat (seq a n))).
  { induction n as [| n IH]; intros a; simpl; constructor.
    - apply IH.
    - apply List.Forall_forall. intros x Hx.
      apply in_map_iff in Hx as (j & <- & Hj). apply in_seq in Hj. lia. }
  split; [| split; [| split]].
  - apply NoDup_ListNoDup, Finite.Injective_map_NoDup.
    + intros a b Hab. lia.
    + apply seq_NoDup.
  - apply List.Forall_forall. intros x Hx.
    apply in_map_iff in Hx as (j & <- & Hj). apply in_seq in Hj. lia.
  - destruct n; simpl; intros i Hi; [discriminate Hi | injection Hi as <-; reflexivity].
  - apply Hsorted.
Qed.
End RegistryFacts.

Section RegistryRuns.
Context `{Platform}.

Lemma connects_concat_replicate (n : nat) (session : list ENet.ENetEvent) :
  Server.connects (concat (replicate n session)) =
  (n * Server.connects session)%nat.
Proof.
  induction n as [| n IH]; [reflexivity |].
  cbn [replicate concat]. rewrite connects_app, IH. reflexivity.
Qed.

(** The ids a started server has handed out after going through
    [batches], whatever else the batches contain. *)
Lemma server_loop_ids (batches : list (list ENet.ENetEvent))
    (show_log : bool) (w : World) :
  Server.connect_ids
    (Server.events
       (fst (Server.network_thread_loop batches
               (Server.start (Server.init show_log), w)))) =
  Server.ids_from 1 (Server.connects (concat batches)).
Proof.
  rewrite server_loop_running by reflexivity.
  destruct (server_service_ids (concat batches)
              (Server.start (Server.init show_log), w)) as [-> _].
  reflexivity.
Qed.

(** After as many sessions as [uint32] has values, the last id is 0. *)
Lemma server_loop_ids_wrap (n : nat) (session : list ENet.ENetEvent)
    (show_log : bool) (w : World) :
  Z.of_nat n = UINT32_MODULUS ->
  Server.connects session = 1%nat ->
  Server.connect_ids
    (Server.events
       (fst (Server.network_thread_loop (replicate n session)
               (Server.start (Server.init show_log), w)))) !! (n - 1)%nat
  = Some 0.
Proof.
  intros Hn Hsession.
  rewrite server_loop_ids, connects_concat_replicate, Hsession, Nat.mul_1_r.
  assert (Hpos : (0 < n)%nat).
  { destruct n; [discriminate Hn | lia]. }
  rewrite ids_from_lookup.
  - f_equal. unfold to_uint32.
    replace (1 + Z.of_nat (n - 1)) with UINT32_MODULUS by lia.
    apply Z_mod_same_full.
  - unfold is_uint32, UINT32_MODULUS. lia.
  - lia.
Qed.
End RegistryRuns.

(** C5, amended. As long as fewer than [2^32] CONNECT notifications have
    been processed since the server was constructed, the ids handed out
    are 1, 2, 3, ... in the order of acceptance, whatever RECEIVE,
    DISCONNECT and TIMEOUT notifications come in between: pairwise
    distinct, positive, starting at 1, increasing, none handed out twice. *)
Theorem connect_ids_before_wrap `{Platform}
    (batches : list (list ENet.ENetEvent)) (show_log : bool) (w : World) :
  Z.of_nat (Server.connects (concat batches)) < UINT32_MODULUS ->
  let s := fst (Server.network_thread_loop batches
                  (Server.start (Server.init show_log), w)) in
  Server.connect_ids (Server.events s) =
    map Z.of_nat (seq 1 (Server.connects (concat batches))) /\
  Server.distinct_positive_increasing (Server.connect_ids (Server.events s)).
Proof.
  intros Hn s.
  assert (Hids : Server.connect_ids (Server.events s) =
                 map Z.of_nat (seq 1 (Server.connects (concat batches)))).
  { subst s. rewrite server_loop_ids.
    rewrite ids_from_no_wrap by lia.
    rewrite <- seq_shift, map_map. apply map_ext. intros i. lia. }
  split; [exact Hids |]. rewrite Hids. apply first_ids_claimed.
Qed.

Lemma connect_ids_before_wrap_witness :
  let P := Build_Platform LittleEndian in
  let ev ty p := ENet.mkEvent ty p [] in
  let batches :=
    [ [ev ENet.ENET_EVENT_TYPE_CONNECT 7%nat; ev ENet.ENET_EVENT_TYPE_RECEIVE 7%nat;
       ev ENet.ENET_EVENT_TYPE_CONNECT 8%nat];
      [ev ENet.ENET_EVENT_TYPE_DISCONNECT 7%nat;
       ev ENet.ENET_EVENT_TYPE_CONNECT 7%nat] ] in
  let s := fst (Server.network_thread_loop batches
                  (Server.start (Server.init false), empty_world)) in
  Server.connect_ids (Server.events s) = [1; 2; 3] /\
  Server.distinct_positive_increasing (Server.connect_ids (Server.events s)).
Proof.
  intros P ev batches s.
  apply (@connect_ids_before_wrap P batches false empty_world).
  vm_compute. reflexivity.
Defined.

(** C5 as stated fails once the [uint32] counter wraps: a server that has
    seen [2^32] clients connect and disconnect, one after the other, has
    handed out the id 0 last, which is not positive. *)
Lemma connect_ids_wrap_counterexample :
  let P := Build_Platform LittleEndian in
  let session := [ENet.mkEvent ENet.ENET_EVENT_TYPE_CONNECT 7%nat [];
                  ENet.mkEvent ENet.ENET_EVENT_TYPE_DISCONNECT 7%nat []] in
  let batches := replicate (Z.to_nat UINT32_MODULUS) session in
  ~ Server.distinct_positive_increasing
      (Server.connect_ids
         (Server.events
            (fst (Server.network_thread_loop batches
                    (Server.start (Server.init false), empty_world))))).
Proof.
  intros P session batches (_ & Hpos & _).
  assert (Hn : Z.of_nat (Z.to_nat UINT32_MODULUS) = UINT32_MODULUS).
  { apply Z2Nat.id. unfold UINT32_MODULUS. lia. }
  pose proof (@server_loop_ids_wrap P (Z.to_nat UINT32_MODULUS) session false
                empty_world Hn eq_refl) as Hlast.
  pose proof (Forall_lookup_1 _ _ _ _ Hpos Hlast) as Hzero.
  simpl in Hzero. lia.
Qed.

(** * Further properties *)

(** ** The packet codec, continued *)

Section CodecMore.
Context `{Platform}.

Lemma deserialize_serialize_packet (p : Packet.t) :
  Packet.wf_Header (Packet.header p) ->
  PacketHelper.deserialize_packet (PacketHelper.serialize_packet p) = Some p.
Proof.
  intros Hwf. rewrite serialize_packet_layout.
  rewrite deserialize_packet_long
    by (rewrite length_app, length_Header_bytes; lia).
  rewrite take_app_length' by (symmetry; apply length_Header_bytes).
  rewrite drop_app_length' by (symmetry; apply length_Header_bytes).
  rewrite Header_of_bytes_bytes by exact Hwf. destruct p; reflexivity.
Qed.

Lemma deserialize_packet_Some (bs : list byte) (p : Packet.t) :
  PacketHelper.deserialize_packet bs = Some p ->
  (Packet.sizeof_Header <= length bs)%nat /\
  p = Packet.mk (Packet.Header_of_bytes (take Packet.sizeof_Header bs))
                (drop Packet.sizeof_Header bs).
Proof.
  intros Hp.
  destruct (Nat.lt_ge_cases (length bs) Packet.sizeof_Header) as [Hlt | Hge].
  - rewrite deserialize_packet_short in Hp by exact Hlt. discriminate Hp.
  - rewrite deserialize_packet_long in Hp by exact Hge.
    injection Hp as <-. auto.
Qed.
End CodecMore.

(** The encoding of a packet is the four bytes of [id], the four bytes of
    [type], then the payload, and is eight bytes longer than the payload. *)
Theorem serialize_packet_wire_format `{Platform} (p : Packet.t) :
  PacketHelper.serialize_packet p =
    uint32_bytes (Packet.id (Packet.header p)) ++
    uint32_bytes (Packet.type (Packet.header p)) ++ Packet.data p /\
  length (PacketHelper.serialize_packet p) = (8 + length (Packet.data p))%nat.
Proof.
  split.
  - rewrite serialize_packet_layout. unfold Packet.Header_bytes.
    rewrite <- app_assoc. reflexivity.
  - rewrite length_serialize_packet. reflexivity.
Qed.

(** Whatever [deserialize_packet] accepts, [serialize_packet] turns back
    into the same bytes. *)
Theorem serialize_deserialize_roundtrip `{Platform} (bs : list byte) (p : Packet.t) :
  PacketHelper.deserialize_packet bs = Some p ->
  PacketHelper.serialize_packet p = bs.
Proof.
  intros Hp. apply deserialize_packet_Some in Hp as [Hlen ->].
  rewrite serialize_packet_layout. simpl.
  rewrite Header_bytes_of_bytes by (rewrite length_take; lia).
  apply take_drop.
Qed.

Lemma serialize_deserialize_roundtrip_witness :
  let bs := [Byte.x01; Byte.x00; Byte.x00; Byte.x00;
             Byte.x02; Byte.x00; Byte.x00; Byte.x00; Byte.x68] in
  PacketHelper.serialize_packet (H := Build_Platform LittleEndian)
    (Packet.mk (Packet.mkHeader 1 2) [Byte.x68]) = bs.
Proof.
  intros bs.
  apply (@serialize_deserialize_roundtrip (Build_Platform LittleEndian) bs).
  reflexivity.
Defined.

(** Two packets with [uint32] header fields and the same encoding are the
    same packet. *)
Theorem serialize_packet_injective `{Platform} (p q : Packet.t) :
  Packet.wf_Header (Packet.header p) -> Packet.wf_Header (Packet.header q) ->
  PacketHelper.serialize_packet p = PacketHelper.serialize_packet q ->
  p = q.
Proof.
  intros Hp Hq Heq.
  apply (f_equal PacketHelper.deserialize_packet) in Heq.
  rewrite !deserialize_serialize_packet in Heq by assumption.
  injection Heq as ->. reflexivity.
Qed.

Lemma serialize_packet_injective_witness :
  let P := Build_Platform BigEndian in
  let p := Packet.mk (Packet.mkHeader 1 2) [Byte.x68; Byte.x69] in
  p = p.
Proof.
  intros P p.
  apply (@serialize_packet_injective P p p);
    try reflexivity; split; unfold is_uint32, UINT32_MODULUS; simpl; lia.
Defined.

(** [unpack_string] gives the payload, byte for byte, the empty payload
    included, and gives back a string stored with [putdata]. *)
Theorem unpack_string_putdata (p : Packet.t) (s : String.string) :
  String.list_byte_of_string (Packet.unpack_string p) = Packet.data p /\
  Packet.unpack_string
    (Packet.putdata p (String.list_byte_of_string s)
       (length (String.list_byte_of_string s))) = s.
Proof.
  unfold Packet.unpack_string, Packet.putdata. split.
  - destruct (Packet.data p) as [| b bs]; [reflexivity |].
    apply String.list_byte_of_string_of_list_byte.
  - simpl. rewrite take_ge by lia.
    destruct (String.list_byte_of_string s) as [| b bs] eqn:Hs; simpl.
    + rewrite <- (String.string_of_list_byte_of_string s), Hs. reflexivity.
    + rewrite <- Hs. apply String.string_of_list_byte_of_string.
Qed.

(** A [uint32] stored in the payload with [putdata] is what
    [unpack_data<uint32>] returns, before and after the packet has gone
    through [serialize_packet] and [deserialize_packet]. *)
Theorem uint32_payload_roundtrip `{Platform} (p : Packet.t) (v : Z) :
  is_uint32 v -> Packet.wf_Header (Packet.header p) ->
  let q := Packet.putdata p (uint32_bytes v) 4 in
  Packet.unpack_data (H := uint32_TriviallyCopyable) q = Some v /\
  match PacketHelper.deserialize_packet (PacketHelper.serialize_packet q) with
  | Some r => Packet.unpack_data (H := uint32_TriviallyCopyable) r
  | None => None
  end = Some v.
Proof.
  intros Hv Hwf q.
  assert (Hq : Packet.unpack_data (H := uint32_TriviallyCopyable) q = Some v).
  { unfold Packet.unpack_data, q, Packet.putdata. simpl Packet.data.
    pose proof (length_uint32_bytes v) as Hlen.
    rewrite (take_ge (uint32_bytes v)) by lia.
    assert (Hne : container_empty (uint32_bytes v) = false).
    { destruct (uint32_bytes v); [discriminate Hlen | reflexivity]. }
    change (sizeof Z) with 4%nat. rewrite Hne, Hlen. simpl.
    rewrite (take_ge (uint32_bytes v)) by lia.
    f_equal. apply uint32_of_bytes_bytes. exact Hv. }
  split; [exact Hq |].
  rewrite deserialize_serialize_packet by exact Hwf. exact Hq.
Qed.

Lemma uint32_payload_roundtrip_witness :
  let P := Build_Platform LittleEndian in
  let q := Packet.putdata (Packet.mk (Packet.mkHeader 1 2) [])
             (uint32_bytes 4294967295) 4 in
  Packet.unpack_data (H := uint32_TriviallyCopyable) q = Some 4294967295 /\
  match PacketHelper.deserialize_packet (PacketHelper.serialize_packet q) with
  | Some r => Packet.unpack_data (H := uint32_TriviallyCopyable) r
  | None => None
  end = Some 4294967295.
Proof.
  intros P q.
  apply (@uint32_payload_roundtrip P (Packet.mk (Packet.mkHeader 1 2) [])
           4294967295);
    [| split]; unfold is_uint32, UINT32_MODULUS; simpl; lia.
Defined.

(** ** The event queue, continued *)

Lemma run_ops_fifo_witness :
  let e n := Event.mk n EventType.Receive None in
  let ops := [TSQueue.PushBack (e 1); TSQueue.PushBack (e 2); TSQueue.PopFront;
              TSQueue.PushBack (e 3); TSQueue.PopFront] in
  [e 1; e 2] ++ [e 3] = [] ++ TSQueue.pushed ops.
Proof.
  intros e ops. apply (run_ops_fifo ops [] [e 1; e 2] [e 3]). reflexivity.
Defined.

(** [push_back] makes its argument the back of the queue and [push_front]
    makes it the front; the other end stays what it was, unless the queue
    was empty, and the queue is not empty afterwards. *)
Theorem push_back_push_front_ends {T : Type} `{Movable T} (x : T) (queue : list T) :
  TSQueue.back (TSQueue.push_back x queue) = Some x /\
  TSQueue.front (TSQueue.push_back x queue) = Some (default x (TSQueue.front queue)) /\
  TSQueue.front (TSQueue.push_front x queue) = Some x /\
  TSQueue.back (TSQueue.push_front x queue) = Some (default x (TSQueue.back queue)) /\
  TSQueue.empty (TSQueue.push_back x queue) = false /\
  TSQueue.empty (TSQueue.push_front x queue) = false.
Proof.
  unfold TSQueue.back, TSQueue.front, TSQueue.push_back, TSQueue.push_front,
    TSQueue.empty.
  repeat split.
  - apply last_snoc.
  - rewrite head_snoc. destruct (head queue); reflexivity.
  - rewrite last_cons. destruct (last queue); reflexivity.
  - destruct queue; reflexivity.
Qed.

(** [n] calls of [poll_event], on a server or on a client, return the first
    [n] queued events in queue order, or all of them if there are fewer,
    remove exactly those, and change nothing else in the object. *)
Theorem poll_n_drains_in_order (n : nat) (s : Server.t) (c : Client.t) :
  server_poll_n n s =
    (take n (Server.events s),
     Server.mk (Server.show_log s) (drop n (Server.events s)) (Server.running s)
       (Server.clients s) (Server.curid s)) /\
  client_poll_n n c =
    (take n (Client.events c),
     Client.mk (Client.peer c) (Client.show_log c) (drop n (Client.events c))
       (Client.running c) (Client.connected c)).
Proof.
  split.
  - revert s. induction n as [| n IH]; intros [lg q r cl id]; simpl.
    + reflexivity.
    + unfold Server.poll_event. simpl. destruct q as [| e q]; simpl.
      * rewrite IH. simpl. rewrite take_nil, drop_nil. reflexivity.
      * rewrite IH. reflexivity.
  - revert c. induction n as [| n IH]; intros [pr lg q r cn]; simpl.
    + reflexivity.
    + unfold Client.poll_event. simpl. destruct q as [| e q]; simpl.
      * rewrite IH. simpl. rewrite take_nil, drop_nil. reflexivity.
      * rewrite IH. reflexivity.
Qed.

(** ** The network loops, continued *)

Section LoopFacts.
Context `{Platform}.

Lemma client_handle_translates (event : ENet.ENetEvent) (s : Client.t * World) :
  exists pushed : list Event.t,
    Client.events (fst (Client.handle event s)) = Client.events (fst s) ++ pushed /\
    map Event.type pushed = option_list (event_type_of (ENet.type event)) /\
    Forall (fun e => Event.packet e <> None -> Event.type e = EventType.Receive)
      pushed.
Proof.
  unfold Client.handle. rewrite client_run_steps_events. unfold Client.on_event.
  eexists. split; [reflexivity |].
  destruct (ENet.type event); simpl; (split; [reflexivity |]);
    repeat constructor; simpl; congruence.
Qed.

Lemma server_handle_translates (event : ENet.ENetEvent) (st : Server.t * World) :
  exists pushed : list Event.t,
    Server.events (fst (Server.handle event st)) = Server.events (fst st) ++ pushed /\
    map Event.type pushed = option_list (event_type_of (ENet.type event)) /\
    Forall (fun e => Event.packet e <> None -> Event.type e = EventType.Receive)
      pushed.
Proof.
  destruct st as [s w]. unfold Server.handle.
  destruct (ENet.type event); simpl; unfold TSQueue.push_back;
    try (exists []; rewrite app_nil_r; repeat split; constructor);
    (eexists; split; [reflexivity |]; split; [reflexivity |]);
    repeat constructor; simpl; congruence.
Qed.

Lemma client_handle_running (event : ENet.ENetEvent) (s : Client.t * World) :
  Client.running (fst (Client.handle event s)) =
  Client.running (fst s) && negb (is_disconnect event).
Proof.
  destruct s as [c w].
  unfold Client.handle, Client.on_event, is_disconnect.
  destruct (ENet.type event); simpl;
    rewrite ?andb_true_r, ?andb_false_r; reflexivity.
Qed.

Lemma client_service_running (pending : list ENet.ENetEvent) :
  forall s : Client.t * World,
    Client.running (fst (Client.service pending s)) =
    Client.running (fst s) && negb (existsb is_disconnect pending).
Proof.
  unfold Client.service.
  induction pending as [| event pending IH]; intros s; cbn [foldl existsb].
  - rewrite andb_true_r. reflexivity.
  - rewrite IH, client_handle_running, negb_orb, andb_assoc. reflexivity.
Qed.

Lemma client_loop_stopped (batches : list (list ENet.ENetEvent))
    (s : Client.t * World) :
  Client.running (fst s) = false -> Client.network_thread_loop batches s = s.
Proof. intros Hrun. destruct batches; simpl; rewrite ?Hrun; reflexivity. Qed.

Lemma server_loop_stopped (batches : list (list ENet.ENetEvent))
    (st : Server.t * World) :
  Server.running (fst st) = false -> Server.network_thread_loop batches st = st.
Proof. intros Hrun. destruct batches; simpl; rewrite ?Hrun; reflexivity. Qed.
End LoopFacts.

(** The client's inner loop pushes one event for each CONNECT, RECEIVE,
    DISCONNECT and TIMEOUT notification and none for any other, in the
    order of the notifications and with the matching type; only [Receive]
    events carry a packet. *)
Theorem client_service_translates `{Platform}
    (pending : list ENet.ENetEvent) (s : Client.t * World) :
  exists pushed : list Event.t,
    Client.events (fst (Client.service pending s)) = Client.events (fst s) ++ pushed /\
    map Event.type pushed =
      omap (fun event => event_type_of (ENet.type event)) pending /\
    Forall (fun e => Event.packet e <> None -> Event.type e = EventType.Receive)
      pushed.
Proof.
  unfold Client.service. revert s.
  induction pending as [| event pending IH]; intros s; cbn [foldl].
  - exists []. rewrite app_nil_r. repeat split. constructor.
  - destruct (client_handle_translates event s) as (p1 & E1 & T1 & F1).
    destruct (IH (Client.handle event s)) as (p2 & E2 & T2 & F2).
    exists (p1 ++ p2). rewrite E2, E1, <- app_assoc. split; [reflexivity |].
    split; [| apply Forall_app; split; assumption].
    rewrite map_app, T1, T2. cbn [omap list_omap].
    destruct (event_type_of (ENet.type event)); reflexivity.
Qed.

(** The same for the server's inner loop. *)
Theorem server_service_translates `{Platform}
    (pending : list ENet.ENetEvent) (st : Server.t * World) :
  exists pushed : list Event.t,
    Server.events (fst (Server.service pending st)) = Server.events (fst st) ++ pushed /\
    map Event.type pushed =
      omap (fun event => event_type_of (ENet.type event)) pending /\
    Forall (fun e => Event.packet e <> None -> Event.type e = EventType.Receive)
      pushed.
Proof.
  unfold Server.service. revert st.
  induction pending as [| event pending IH]; intros st; cbn [foldl].
  - exists []. rewrite app_nil_r. repeat split. constructor.
  - destruct (server_handle_translates event st) as (p1 & E1 & T1 & F1).
    destruct (IH (Server.handle event st)) as (p2 & E2 & T2 & F2).
    exists (p1 ++ p2). rewrite E2, E1, <- app_assoc. split; [reflexivity |].
    split; [| apply Forall_app; split; assumption].
    rewrite map_app, T1, T2. cbn [omap list_omap].
    destruct (event_type_of (ENet.type event)); reflexivity.
Qed.

(** A running client's loop goes through the batches up to the first one
    that holds a DISCONNECT or TIMEOUT notification, finishes that batch,
    and stops; without such a notification it goes through all of them and
    is still running. *)
Theorem client_loop_until_disconnect `{Platform}
    (batches : list (list ENet.ENetEvent)) (s : Client.t * World) :
  Client.running (fst s) = true ->
  Client.network_thread_loop batches s =
    Client.service (concat (batches_until_disconnect batches)) s /\
  Client.running (fst (Client.network_thread_loop batches s)) =
    negb (existsb is_disconnect (concat batches)).
Proof.
  revert s. induction batches as [| pending batches IH]; intros s Hrun.
  - simpl. rewrite Hrun. split; reflexivity.
  - cbn [Client.network_thread_loop batches_until_disconnect concat].
    rewrite Hrun, existsb_app.
    pose proof (client_service_running pending s) as Hserv.
    rewrite Hrun in Hserv. simpl in Hserv.
    destruct (existsb is_disconnect pending); simpl in *.
    + rewrite client_loop_stopped by exact Hserv. rewrite app_nil_r.
      split; [reflexivity | exact Hserv].
    + destruct (IH (Client.service pending s) Hserv) as [IHloop IHrun].
      rewrite IHrun, IHloop. split; [| reflexivity].
      unfold Client.service. rewrite foldl_app. reflexivity.
Qed.

Lemma client_loop_until_disconnect_witness :
  let P := Build_Platform LittleEndian in
  let ev ty := ENet.mkEvent ty 0%nat [] in
  let batches :=
    [ [ev ENet.ENET_EVENT_TYPE_CONNECT];
      [ev ENet.ENET_EVENT_TYPE_DISCONNECT; ev ENet.ENET_EVENT_TYPE_NONE];
      [ev ENet.ENET_EVENT_TYPE_CONNECT] ] in
  let s := (Client.mk (Some 0%nat) false [] true false, empty_world) in
  Client.network_thread_loop batches s =
    Client.service [ev ENet.ENET_EVENT_TYPE_CONNECT;
                    ev ENet.ENET_EVENT_TYPE_DISCONNECT;
                    ev ENet.ENET_EVENT_TYPE_NONE] s /\
  Client.running (fst (Client.network_thread_loop batches s)) = false.
Proof.
  intros P ev batches s.
  apply (@client_loop_until_disconnect P batches s). reflexivity.
Defined.

(** No notification changes the server's [running] flag: a running server
    goes through every batch, a stopped one through none. *)
Theorem server_loop_all_or_nothing `{Platform}
    (batches : list (list ENet.ENetEvent)) (st : Server.t * World) :
  Server.network_thread_loop batches st =
    (if Server.running (fst st) then Server.service (concat batches) st else st) /\
  Server.running (fst (Server.network_thread_loop batches st)) =
    Server.running (fst st).
Proof.
  destruct (Server.running (fst st)) eqn:Hrun.
  - rewrite server_loop_running by exact Hrun. split; [reflexivity |].
    destruct (server_service_ids (concat batches) st) as [_ ->]. exact Hrun.
  - rewrite server_loop_stopped by exact Hrun. split; [reflexivity | exact Hrun].
Qed.

(** ** The server's registry, continued *)

Section RegistryMore.
Context `{Platform}.

Lemma get_peer_data_LOG_SERVER (p : Peer) (b : bool) (m : LogLine) (w : World) :
  get_peer_data p (LOG_SERVER b m w) = get_peer_data p w.
Proof. destruct b; reflexivity. Qed.

Lemma get_peer_data_set (p : Peer) (v : Z) (w : World) :
  get_peer_data p (set_peer_data p v w) = to_uint32 v.
Proof.
  unfold get_peer_data, set_peer_data. simpl.
  rewrite lookup_insert_eq. reflexivity.
Qed.

Lemma get_peer_data_enet_call (p : Peer) (c : ENet.Call) (w : World) :
  get_peer_data p (enet_call c w) = get_peer_data p w.
Proof. reflexivity. Qed.

Lemma server_handle_connect (s : Server.t) (w : World) (p : Peer) (d : list byte) :
  Server.handle (ENet.mkEvent ENet.ENET_EVENT_TYPE_CONNECT p d) (s, w) =
  (Server.mk (Server.show_log s)
     (Server.events s ++ [Event.mk (Server.curid s) EventType.Connect None])
     (Server.running s) (<[Server.curid s := p]> (Server.clients s))
     (to_uint32 (Server.curid s + 1)),
   LOG_SERVER (Server.show_log s) (LogClientConnected (Server.curid s))
     (set_peer_data p (Server.curid s) w)).
Proof. reflexivity. Qed.

Lemma server_handle_receive (s : Server.t) (w : World) (p : Peer) (bytes : list byte) :
  Server.handle (ENet.mkEvent ENet.ENET_EVENT_TYPE_RECEIVE p bytes) (s, w) =
  (Server.mk (Server.show_log s)
     (Server.events s ++
        [Event.mk (get_peer_data p w) EventType.Receive
           (PacketHelper.deserialize_packet bytes)])
     (Server.running s) (Server.clients s) (Server.curid s),
   enet_call (ENet.enet_packet_destroy bytes)
     (LOG_SERVER (Server.show_log s)
        (LogPacketReceivedFromPeer (get_peer_data p w)) w)).
Proof. reflexivity. Qed.

Lemma server_handle_disconnect (s : Server.t) (w : World) (p : Peer)
    (d : list byte) (bye : ENet.EventType) :
  event_type_of bye = Some EventType.Disconnect ->
  Server.handle (ENet.mkEvent bye p d) (s, w) =
  (Server.mk (Server.show_log s)
     (Server.events s ++ [Event.mk (get_peer_data p w) EventType.Disconnect None])
     (Server.running s) (delete (get_peer_data p w) (Server.clients s))
     (Server.curid s),
   LOG_SERVER (Server.show_log s) (LogClientDisconnected (get_peer_data p w)) w).
Proof. destruct bye; intros Hbye; try discriminate Hbye; reflexivity. Qed.

Lemma to_uint32_small (v : Z) : is_uint32 v -> to_uint32 v = v.
Proof. intros Hv. apply Z.mod_small. exact Hv. Qed.

Lemma to_uint32_range (v : Z) : is_uint32 (to_uint32 v).
Proof.
  unfold is_uint32, to_uint32, UINT32_MODULUS. apply Z.mod_pos_bound. lia.
Qed.

Lemma curid_after_uint32 (n : nat) :
  forall c : Z, is_uint32 c -> curid_after c n = to_uint32 (c + Z.of_nat n).
Proof.
  induction n as [| n IH]; intros c Hc; cbn [curid_after].
  - rewrite Z.add_0_r, to_uint32_small by exact Hc. reflexivity.
  - rewrite IH by apply to_uint32_range.
    unfold to_uint32. rewrite Zplus_mod_idemp_l. f_equal. lia.
Qed.

Lemma ids_from_app (n m : nat) :
  forall c : Z,
    Server.ids_from c (n + m) =
    Server.ids_from c n ++ Server.ids_from (curid_after c n) m.
Proof.
  induction n as [| n IH]; intros c; simpl; [reflexivity |].
  rewrite IH. reflexivity.
Qed.

Lemma server_service_curid (pending : list ENet.ENetEvent) :
  forall st : Server.t * World,
    Server.curid (fst (Server.service pending st)) =
    curid_after (Server.curid (fst st)) (Server.connects pending).
Proof.
  unfold Server.service.
  induction pending as [| event pending IH]; intros [s w]; cbn [foldl fst].
  - reflexivity.
  - destruct (server_handle_ids event s w) as (_ & Hcur & _).
    rewrite IH, Hcur, connects_cons.
    destruct (Server.is_connect event); reflexivity.
Qed.
End RegistryMore.

(** [curid] is the number of CONNECT notifications processed, plus its
    earlier value, modulo [2^32]; it stays a [uint32]. *)
Theorem server_curid_counts `{Platform}
    (pending : list ENet.ENetEvent) (st : Server.t * World) :
  is_uint32 (Server.curid (fst st)) ->
  Server.curid (fst (Server.service pending st)) =
    to_uint32 (Server.curid (fst st) + Z.of_nat (Server.connects pending)) /\
  is_uint32 (Server.curid (fst (Server.service pending st))).
Proof.
  intros Hc. rewrite server_service_curid, curid_after_uint32 by exact Hc.
  split; [reflexivity | apply to_uint32_range].
Qed.

Lemma server_curid_counts_witness :
  let P := Build_Platform LittleEndian in
  let ev ty := ENet.mkEvent ty 3%nat [] in
  let pending := [ev ENet.ENET_EVENT_TYPE_CONNECT; ev ENet.ENET_EVENT_TYPE_DISCONNECT;
                  ev ENet.ENET_EVENT_TYPE_CONNECT] in
  let st := (Server.mk false [] true ∅ 4294967295, empty_world) in
  Server.curid (fst (Server.service pending st)) = 1 /\
  is_uint32 (Server.curid (fst (Server.service pending st))).
Proof.
  intros P ev pending st.
  apply (@server_curid_counts P pending st).
  unfold is_uint32, UINT32_MODULUS. simpl. lia.
Defined.

(** Stopping and restarting the server does not reset the ids: the ids
    handed out before and after the restart continue 1, 2, 3, ... as long
    as there are fewer than [2^32] of them. *)
Theorem server_ids_survive_restart `{Platform}
    (before after : list (list ENet.ENetEvent)) (show_log : bool) (w : World) :
  let n := (Server.connects (concat before) + Server.connects (concat after))%nat in
  Z.of_nat n < UINT32_MODULUS ->
  let st1 := Server.network_thread_loop before
               (Server.start (Server.init show_log), w) in
  let st2 := Server.network_thread_loop after
               (Server.start (Server.stop (fst st1)), snd st1) in
  Server.connect_ids (Server.events (fst st2)) = map Z.of_nat (seq 1 n).
Proof.
  intros n Hn st1 st2.
  assert (H1 : st1 = Server.service (concat before)
                       (Server.start (Server.init show_log), w)).
  { apply server_loop_running. reflexivity. }
  assert (Hids1 : Server.connect_ids (Server.events (fst st1)) =
                  Server.ids_from 1 (Server.connects (concat before))).
  { apply server_loop_ids. }
  assert (Hcur1 : Server.curid (fst st1) =
                  curid_after 1 (Server.connects (concat before))).
  { rewrite H1, server_service_curid. reflexivity. }
  subst st2. rewrite server_loop_running by reflexivity.
  destruct (server_service_ids (concat after)
              (Server.start (Server.stop (fst st1)), snd st1)) as [-> _].
  replace (Server.events (fst (Server.start (Server.stop (fst st1)), snd st1)))
    with (Server.events (fst st1)) by reflexivity.
  replace (Server.curid (fst (Server.start (Server.stop (fst st1)), snd st1)))
    with (Server.curid (fst st1)) by reflexivity.
  rewrite Hids1, Hcur1, <- ids_from_app.
  fold n. rewrite ids_from_no_wrap by lia.
  rewrite <- seq_shift, map_map. apply map_ext. intros i. lia.
Qed.

Lemma server_ids_survive_restart_witness :
  let P := Build_Platform LittleEndian in
  let ev ty p := ENet.mkEvent ty p [] in
  let before := [[ev ENet.ENET_EVENT_TYPE_CONNECT 7%nat;
                  ev ENet.ENET_EVENT_TYPE_CONNECT 8%nat]] in
  let after := [[ev ENet.ENET_EVENT_TYPE_DISCONNECT 7%nat];
                [ev ENet.ENET_EVENT_TYPE_CONNECT 7%nat]] in
  let st1 := Server.network_thread_loop before
               (Server.start (Server.init false), empty_world) in
  let st2 := Server.network_thread_loop after
               (Server.start (Server.stop (fst st1)), snd st1) in
  Server.connect_ids (Server.events (fst st2)) = [1; 2; 3].
Proof.
  intros P ev before after st1 st2.
  apply (@server_ids_survive_restart P before after false empty_world).
  vm_compute. reflexivity.
Defined.

(** One client's session on the server.  CONNECT registers the peer under
    the current [curid]; a RECEIVE from that peer is reported under that id
    and leaves the registry alone; DISCONNECT or TIMEOUT from that peer is
    reported under that id too and removes the entry, so that the registry
    is what it was before the session if the id was free. *)
Theorem server_session_registry `{Platform} (s : Server.t) (w : World)
    (p : Peer) (d1 bytes d2 : list byte) (bye : ENet.EventType) :
  is_uint32 (Server.curid s) ->
  Server.clients s !! Server.curid s = None ->
  event_type_of bye = Some EventType.Disconnect ->
  let id := Server.curid s in
  let st1 := Server.handle (ENet.mkEvent ENet.ENET_EVENT_TYPE_CONNECT p d1) (s, w) in
  let st2 := Server.handle (ENet.mkEvent ENet.ENET_EVENT_TYPE_RECEIVE p bytes) st1 in
  let st3 := Server.handle (ENet.mkEvent bye p d2) st2 in
  Server.clients (fst st1) !! id = Some p /\
  Server.clients (fst st2) = Server.clients (fst st1) /\
  Server.clients (fst st3) = Server.clients s /\
  Server.events (fst st3) =
    Server.events s ++
      [Event.mk id EventType.Connect None;
       Event.mk id EventType.Receive (PacketHelper.deserialize_packet bytes);
       Event.mk id EventType.Disconnect None].
Proof.
  intros Hid Hfree Hbye id st1 st2 st3. subst st3 st2 st1.
  rewrite server_handle_connect, server_handle_receive,
    (server_handle_disconnect _ _ _ _ bye Hbye).
  cbn [fst Server.clients Server.events Server.show_log].
  rewrite get_peer_data_enet_call, !get_peer_data_LOG_SERVER, get_peer_data_set,
    to_uint32_small by exact Hid.
  fold id. split; [apply lookup_insert_eq |]. split; [reflexivity |].
  split; [apply delete_insert_id; exact Hfree |].
  rewrite <- !app_assoc. reflexivity.
Qed.

Lemma server_session_registry_witness :
  let P := Build_Platform LittleEndian in
  let s := Server.start (Server.init false) in
  let st1 := Server.handle (ENet.mkEvent ENet.ENET_EVENT_TYPE_CONNECT 7%nat [])
               (s, empty_world) in
  let st2 := Server.handle (ENet.mkEvent ENet.ENET_EVENT_TYPE_RECEIVE 7%nat []) st1 in
  let st3 := Server.handle
               (ENet.mkEvent ENet.ENET_EVENT_TYPE_DISCONNECT_TIMEOUT 7%nat []) st2 in
  Server.clients (fst st1) !! 1 = Some 7%nat /\
  Server.clients (fst st2) = Server.clients (fst st1) /\
  Server.clients (fst st3) = ∅ /\
  Server.events (fst st3) =
    [] ++ [Event.mk 1 EventType.Connect None;
           Event.mk 1 EventType.Receive None;
           Event.mk 1 EventType.Disconnect None].
Proof.
  intros P s st1 st2 st3.
  apply (@server_session_registry P s empty_world 7%nat [] [] []
           ENet.ENET_EVENT_TYPE_DISCONNECT_TIMEOUT);
    [unfold is_uint32, UINT32_MODULUS; simpl; lia | reflexivity | reflexivity].
Defined.

(** ** Sending and receiving *)

Section ReceiveFacts.
Context `{Platform}.

Lemma client_handle_receive (c : Client.t) (w : World) (p : Peer) (bytes : list byte) :
  Client.events
    (fst (Client.handle (ENet.mkEvent ENet.ENET_EVENT_TYPE_RECEIVE p bytes) (c, w))) =
  Client.events c ++
    [Event.mk 0 EventType.Receive (PacketHelper.deserialize_packet bytes)].
Proof. reflexivity. Qed.
End ReceiveFacts.

(** A buffer made by [serialize_packet] on the sending side and arriving in
    a RECEIVE notification makes the server's loop push a [Receive] event
    under the id stored on the sending peer, and a client's loop push one
    with [peer_id] 0.  The packet of the event has the payload that was
    serialized; its header is the header bytes of the sender read in the
    byte order of the receiver, which is the header that was serialized
    when the two byte orders are the same and the header fields are
    [uint32] values. *)
Theorem serialized_packet_is_received (sender receiver : Platform)
    (packet : Packet.t) (from : Peer)
    (s : Server.t) (ws : World) (c : Client.t) (w : World) :
  let buffer := PacketHelper.serialize_packet (H := sender) packet in
  let arrival := ENet.mkEvent ENet.ENET_EVENT_TYPE_RECEIVE from buffer in
  let received :=
    Packet.mk
      (Packet.Header_of_bytes (H := receiver)
         (Packet.Header_bytes (H := sender) (Packet.header packet)))
      (Packet.data packet) in
  Server.events (fst (Server.handle (H := receiver) arrival (s, ws))) =
    Server.events s ++
      [Event.mk (get_peer_data from ws) EventType.Receive (Some received)] /\
  Client.events (fst (Client.handle (H := receiver) arrival (c, w))) =
    Client.events c ++ [Event.mk 0 EventType.Receive (Some received)] /\
  (byte_order (Platform := sender) = byte_order (Platform := receiver) ->
   Packet.wf_Header (Packet.header packet) ->
   received = packet).
Proof.
  intros buffer arrival received.
  assert (Hdecode : PacketHelper.deserialize_packet (H := receiver) buffer =
                    Some received).
  { unfold buffer. rewrite (@serialize_packet_layout sender).
    rewrite (@deserialize_packet_long receiver)
      by (rewrite length_app, (@length_Header_bytes sender); lia).
    rewrite take_app_length' by (symmetry; apply (@length_Header_bytes sender)).
    rewrite drop_app_length' by (symmetry; apply (@length_Header_bytes sender)).
    reflexivity. }
  split; [| split].
  - unfold arrival. rewrite (@server_handle_receive receiver), Hdecode.
    reflexivity.
  - unfold arrival. rewrite (@client_handle_receive receiver), Hdecode.
    reflexivity.
  - intros Horder Hwf. unfold received.
    destruct sender as [o1], receiver as [o2]. simpl in Horder. subst o2.
    rewrite Header_of_bytes_bytes by exact Hwf. destruct packet; reflexivity.
Qed.

Lemma serialized_packet_is_received_witness :
  let P := Build_Platform BigEndian in
  let packet := Packet.mk (Packet.mkHeader 1 2) [Byte.x68; Byte.x69] in
  Packet.mk
    (Packet.Header_of_bytes (H := P)
       (Packet.Header_bytes (H := P) (Packet.header packet)))
    (Packet.data packet) = packet.
Proof.
  intros P packet.
  apply (proj2 (proj2 (serialized_packet_is_received P P packet 7%nat
                         (Server.init false) empty_world
                         (Client.init false) empty_world)));
    [reflexivity | split; unfold is_uint32, UINT32_MODULUS; simpl; lia].
Defined.

(** Between platforms of different byte order the header fields arrive
    with their bytes reversed. *)
Example serialized_packet_across_byte_orders :
  let packet := Packet.mk (Packet.mkHeader 1 2) [Byte.x68; Byte.x69] in
  PacketHelper.deserialize_packet (H := Build_Platform BigEndian)
    (PacketHelper.serialize_packet (H := Build_Platform LittleEndian) packet)
  = Some (Packet.mk (Packet.mkHeader 16777216 33554432) [Byte.x68; Byte.x69]).
Proof. reflexivity. Qed.

(** A RECEIVE notification with fewer than eight bytes still makes the
    loops push a [Receive] event; the event has no packet. *)
Theorem truncated_receive_pushes_event_without_packet `{Platform}
    (bytes : list byte) (from : Peer)
    (c : Client.t) (w : World) (s : Server.t) (ws : World) :
  (length bytes < 8)%nat ->
  let arrival := ENet.mkEvent ENet.ENET_EVENT_TYPE_RECEIVE from bytes in
  Client.events (fst (Client.handle arrival (c, w))) =
    Client.events c ++ [Event.mk 0 EventType.Receive None] /\
  Server.events (fst (Server.handle arrival (s, ws))) =
    Server.events s ++ [Event.mk (get_peer_data from ws) EventType.Receive None].
Proof.
  intros Hlen arrival. subst arrival.
  rewrite server_handle_receive, client_handle_receive.
  rewrite deserialize_packet_short by exact Hlen. auto.
Qed.

Lemma truncated_receive_pushes_event_without_packet_witness :
  let P := Build_Platform LittleEndian in
  let arrival := ENet.mkEvent ENet.ENET_EVENT_TYPE_RECEIVE 7%nat [Byte.x01] in
  let c := Client.mk (Some 7%nat) false [] true true in
  let s := Server.start (Server.init false) in
  Client.events (fst (Client.handle arrival (c, empty_world))) =
    [] ++ [Event.mk 0 EventType.Receive None] /\
  Server.events (fst (Server.handle arrival (s, empty_world))) =
    [] ++ [Event.mk 0 EventType.Receive None].
Proof.
  intros P arrival c s.
  apply (@truncated_receive_pushes_event_without_packet P [Byte.x01] 7%nat
           c empty_world s empty_world).
  simpl. lia.
Defined.

(** ** The client's [connect] *)

Section ConnectFacts.
Context `{Platform}.

Lemma client_loop_running_without_disconnect
    (batches : list (list ENet.ENetEvent)) :
  forall s : Client.t * World,
    Client.running (fst s) = true ->
    existsb is_disconnect (concat batches) = false ->
    Client.running (fst (Client.network_thread_loop batches s)) = true.
Proof.
  induction batches as [| pending batches IH]; intros s Hrun Hnone.
  - exact Hrun.
  - cbn [concat] in Hnone. rewrite existsb_app in Hnone.
    apply orb_false_elim in Hnone as [Hpending Hrest].
    cbn [Client.network_thread_loop]. rewrite Hrun. apply IH; [| exact Hrest].
    rewrite client_service_running, Hrun, Hpending. reflexivity.
Qed.

Lemma client_poll_n_running (n : nat) :
  forall c : Client.t,
    Client.running (snd (client_poll_n n c)) = Client.running c.
Proof.
  induction n as [| n IH]; intros c; [reflexivity |].
  cbn [client_poll_n]. unfold Client.poll_event.
  destruct (Client.events c) as [| e q]; simpl.
  - apply IH.
  - specialize (IH (Client.mk (Client.peer c) (Client.show_log c) q
                      (Client.running c) (Client.connected c))).
    destruct (client_poll_n n _) as [es c']. exact IH.
Qed.
End ConnectFacts.

(** After [connect] has succeeded on a new client, and for as long as the
    loop has handled no DISCONNECT or TIMEOUT notification, a further
    [connect] changes nothing in the client and only logs, whatever the
    loop has handled and the consumer has polled in between. *)
Theorem client_connect_while_running_is_noop `{Platform}
    (p : Peer) (show_log : bool) (w w' : World)
    (batches : list (list ENet.ENetEvent)) (n : nat) (new_peer : option Peer) :
  existsb is_disconnect (concat batches) = false ->
  exists (c1 : Client.t) (w1 : World),
    Client.connect (Some p) (Client.init show_log) w = inl (c1, w1) /\
    let c2 := snd (client_poll_n n
                     (fst (Client.network_thread_loop batches (c1, w1)))) in
    Client.running c2 = true /\
    Client.connect new_peer c2 w' =
      inl (c2, LOG_SERVER (Client.show_log c2) LogAlreadyConnected w').
Proof.
  intros Hnone. eexists _, _. split; [reflexivity |]. intros c2.
  assert (Hrun : Client.running c2 = true).
  { unfold c2. rewrite client_poll_n_running.
    apply client_loop_running_without_disconnect; [reflexivity | exact Hnone]. }
  split; [exact Hrun |].
  unfold Client.connect. rewrite Hrun, orb_true_r. reflexivity.
Qed.

Lemma client_connect_while_running_is_noop_witness :
  let P := Build_Platform LittleEndian in
  let ev ty := ENet.mkEvent ty 5%nat [] in
  let batches := [[ev ENet.ENET_EVENT_TYPE_CONNECT]; [ev ENet.ENET_EVENT_TYPE_RECEIVE]] in
  exists (c1 : Client.t) (w1 : World),
    Client.connect (Some 5%nat) (Client.init true) empty_world = inl (c1, w1) /\
    let c2 := snd (client_poll_n 1
                     (fst (Client.network_thread_loop batches (c1, w1)))) in
    Client.running c2 = true /\
    Client.connect (Some 6%nat) c2 empty_world =
      inl (c2, LOG_SERVER (Client.show_log c2) LogAlreadyConnected empty_world).
Proof.
  intros P ev batches.
  apply (@client_connect_while_running_is_noop P 5%nat true empty_world
           empty_world batches 1 (Some 6%nat)).
  reflexivity.
Defined.

(** The life of a client.  [connect] on a new client stores the peer and
    sets [running]; until the loop has handled CONNECT the client is not
    connected and [disconnect] does nothing; once it has, [disconnect] asks
    the engine to disconnect that peer, and leaves the flags to the loop;
    after the loop has handled DISCONNECT or TIMEOUT the client is neither
    connected nor running, and [disconnect] does nothing again. *)
Theorem client_disconnect_lifecycle `{Platform} (p : Peer) (show_log : bool)
    (w w' : World) (d1 d2 : list byte) (bye : ENet.EventType) :
  event_type_of bye = Some EventType.Disconnect ->
  let c1 := Client.mk (Some p) show_log [] true false in
  let c2 := fst (Client.handle (ENet.mkEvent ENet.ENET_EVENT_TYPE_CONNECT p d1) (c1, w)) in
  let c3 := fst (Client.handle (ENet.mkEvent bye p d2) (c2, w)) in
  Client.connect (Some p) (Client.init show_log) w =
    inl (c1, LOG_SERVER show_log LogConnectionAttempt w) /\
  (Client.isconnected c1 = false /\ Client.disconnect c1 w' = (c1, w')) /\
  (Client.isconnected c2 = true /\
   Client.disconnect c2 w' =
     (c2, LOG_SERVER show_log LogDisconnecting
            (enet_call (ENet.enet_peer_disconnect (Some p)) w'))) /\
  (Client.isconnected c3 = false /\ Client.isrunning c3 = false /\
   Client.disconnect c3 w' = (c3, w')).
Proof.
  intros Hbye c1 c2 c3. split; [reflexivity |]. split; [split; reflexivity |].
  split; [split; reflexivity |].
  subst c3. destruct bye; try discriminate Hbye; repeat split.
Qed.

Lemma client_disconnect_lifecycle_witness :
  let P := Build_Platform LittleEndian in
  let c1 := Client.mk (Some 5%nat) false [] true false in
  let c2 := fst (Client.handle (ENet.mkEvent ENet.ENET_EVENT_TYPE_CONNECT 5%nat [])
                   (c1, empty_world)) in
  Client.isconnected c2 = true /\
  Client.disconnect c2 empty_world =
    (c2, LOG_SERVER false LogDisconnecting
           (enet_call (ENet.enet_peer_disconnect (Some 5%nat)) empty_world)).
Proof.
  intros P c1 c2.
  apply (@client_disconnect_lifecycle P 5%nat false empty_world empty_world [] []
           ENet.ENET_EVENT_TYPE_DISCONNECT eq_refl).
Defined.
